(** * AlertViewer: feed synchronisation of src/AlertViewer.tsx

    A shallow embedding of the state logic of the [AlertViewer] React
    component: the paginated alert fetch ([fetchAlerts]), the
    dedup/merge/sort pipeline ([sortAlerts]), the resolve path
    ([resolveAlert]) and the periodic counter poll.

    Conventions of the embedding.
    - React state cells ([useState]) are the fields of one record [State];
      a setter call is a record update.  The console output, the requests
      handed to [fetch] and the armed interval timer are kept in the same
      record so that "nothing else happened" can be stated as an equality.
      The zoomed image ([enlargedImageId]) and the markup are left out.
    - An [async] function is split at its [await]: the synchronous prefix
      ([fetchAlerts], [resolveAlert], [counterTick]) and the continuation
      run when the promise settles ([fetchAlerts_resume], ...).  A call
      reads the cells as of the latest render, which is the current state.
      The continuation only calls setters, so it acts on the state current
      at the moment the promise settles.
    - A response body is what the code reads of it: that it is JSON, that
      it has the [data] array, and the entries of that array, each an
      object with the declared fields or [null].
    - A JavaScript string is a [string] of code units below 256.
    - A JavaScript number is a [number]: [NaN], the two infinities, or an
      integer.  Integers are exact in a double up to 2^53; the statements
      that read the value of an id ask for a safe integer ([safeId]).
    - [Array.prototype.sort] is stable (ECMAScript 2019).  For a comparator
      that is consistent the result is therefore determined.  When the
      comparator returns [NaN] the order is left to the engine, and
      [Array_sort] follows V8: a [NaN] counts as [0], the first run is
      taken as it stands (reversed when strictly descending) and the
      remaining elements are inserted by binary search.  This is V8's whole
      algorithm on arrays shorter than 64; on longer arrays V8 merges runs,
      with the same result on the ids that parse.  The general statements
      about the order ask that every id parses.
    - Spreading an array into a call ([Math.max(...xs)]) throws a
      [RangeError] when the array has more elements than the engine takes
      as arguments.  That number is the section variable [maxArguments];
      the sample runs at the end of the file take [sampleLimit] for it.
    - An event is a call the page can make: the handler of a button is
      called only while the button is rendered, so
      [handlePasswordSubmit] acts only while the modal is shown. *)

From Stdlib Require Import ZArith Ascii String DecimalString DecimalPos.
From stdpp Require Import gmap strings list sorting.

Local Open Scope string_scope.
Local Open Scope Z_scope.

(** ** Numbers *)

Inductive number : Type :=
| NaN
| NegInfinity
| Int (z : Z)
| Infinity.

#[global] Instance number_eq_dec : EqDecision number.
Proof. solve_decision. Defined.

(** [x - y] on numbers. *)
Definition number_sub (x y : number) : number :=
  match x, y with
  | NaN, _ | _, NaN => NaN
  | Int a, Int b => Int (a - b)
  | Infinity, Infinity | NegInfinity, NegInfinity => NaN
  | Infinity, _ | _, NegInfinity => Infinity
  | NegInfinity, _ | _, Infinity => NegInfinity
  end.

(** The larger of two numbers, [NaN] if either is. *)
Definition number_max (x y : number) : number :=
  match x, y with
  | NaN, _ | _, NaN => NaN
  | Infinity, _ | _, Infinity => Infinity
  | NegInfinity, v | v, NegInfinity => v
  | Int a, Int b => Int (Z.max a b)
  end.

(** [Math.max(...xs)]: [-Infinity] for no argument. *)
Definition Math_max (xs : list number) : number :=
  foldr number_max NegInfinity xs.

(** [Number.prototype.toString()]: decimal digits for an integer, as
    JavaScript prints them below 10^21. *)
Definition number_toString (v : number) : string :=
  match v with
  | NaN => "NaN"
  | NegInfinity => "-Infinity"
  | Infinity => "Infinity"
  | Int z => NilZero.string_of_int (Z.to_int z)
  end.

(** ** parseInt (radix omitted) *)

Definition isWhiteSpace (c : ascii) : bool :=
  existsb (Nat.eqb (nat_of_ascii c)) [9; 10; 11; 12; 13; 32; 160]%nat.

Fixpoint trimStart (s : string) : string :=
  match s with
  | String c s' => if isWhiteSpace c then trimStart s' else s
  | EmptyString => EmptyString
  end.

(** Value of a code unit as a digit, whatever the radix. *)
Definition digitOf (c : ascii) : option Z :=
  let n := Z.of_nat (nat_of_ascii c) in
  if (48 <=? n) && (n <=? 57) then Some (n - 48)
  else if (97 <=? n) && (n <=? 122) then Some (n - 87)
  else if (65 <=? n) && (n <=? 90) then Some (n - 55)
  else None.

Definition radixDigit (radix : Z) (c : ascii) : option Z :=
  match digitOf c with
  | Some d => if d <? radix then Some d else None
  | None => None
  end.

(** The longest prefix of radix digits, read as an integer; [None] when
    that prefix is empty. *)
Fixpoint parseDigits (radix : Z) (acc : option Z) (s : string) : option Z :=
  match s with
  | String c s' =>
      match radixDigit radix c with
      | Some d => parseDigits radix (Some (radix * default 0 acc + d)) s'
      | None => acc
      end
  | EmptyString => acc
  end.

Definition stripSign (s : string) : Z * string :=
  match s with
  | String "-" r => (-1, r)
  | String "+" r => (1, r)
  | _ => (1, s)
  end.

Definition stripPrefix (s : string) : Z * string :=
  match s with
  | String "0" (String "x" r) => (16, r)
  | String "0" (String "X" r) => (16, r)
  | _ => (10, s)
  end.

Definition parseInt (s : string) : number :=
  let '(sign, s1) := stripSign (trimStart s) in
  let '(radix, s2) := stripPrefix s1 in
  match parseDigits radix None s2 with
  | None => NaN
  | Some m => Int (sign * m)
  end.

(** ** Data model *)

Record Alert : Type := mkAlert {
  fileId : string;
  sasUrl : string;
  alert : string;
  timestamp : string;
}.

#[global] Instance Alert_eq_dec : EqDecision Alert.
Proof. solve_decision. Defined.

(** A request handed to [fetch]. *)
Record Request : Type := mkRequest {
  method : string;
  url : string;
  xApiKey : string;
}.

#[global] Instance Request_eq_dec : EqDecision Request.
Proof. solve_decision. Defined.

(** How the promise of a [fetch] settles: it rejects (network failure), or
    it resolves to a response with its [ok] flag and its body. *)
Inductive Settled (B : Type) : Type :=
| Rejected (reason : string)
| Responded (ok : bool) (body : B).
Arguments Rejected {B} reason.
Arguments Responded {B} ok body.

(** Body of a [/FileData] response as [fetchAlerts] reads it.  An entry of
    the array is an object with the four string fields of [Alert], or
    [null] ([None]). *)
Inductive FileDataBody : Type :=
| FileDataNotJson                 (* response.json() rejects *)
| FileDataNoArray                 (* raw is null, or raw.data is not an array *)
| FileData (data : list (option Alert)).

Record CounterRow : Type := mkCounterRow {
  rowKey : string;
  count : Z;
}.

(** Body of a [/Counter] response as the poll reads it. *)
Inductive CounterBody : Type :=
| CounterNotJson
| CounterNoArray
| CounterData (data : list (option CounterRow)).

(** The state cells of the component, followed by what it did to its
    environment. *)
Record State : Type := mkState {
  alerts : list Alert;
  loading : bool;
  error : option string;
  lastCutoffId : string;
  counter : Z;
  apiKey : option string;
  showPasswordModal : bool;
  hasFetched : bool;
  interval : option Z;            (* period of the armed timer, in ms *)
  console : list string;          (* console.error lines, oldest first *)
  network : list Request;         (* requests issued, oldest first *)
}.

#[global] Instance State_eq_dec : EqDecision State.
Proof. solve_decision. Defined.

(** The state after the first render and its effects: the interval is
    armed, no key has been entered. *)
Definition initialState : State :=
  {| alerts := []; loading := false; error := None; lastCutoffId := "0";
     counter := 0; apiKey := None; showPasswordModal := true;
     hasFetched := false; interval := Some 2000;
     console := []; network := [] |}.

Definition setAlerts (f : list Alert → list Alert) (s : State) : State :=
  {| alerts := f (alerts s); loading := loading s; error := error s;
     lastCutoffId := lastCutoffId s; counter := counter s;
     apiKey := apiKey s; showPasswordModal := showPasswordModal s;
     hasFetched := hasFetched s; interval := interval s;
     console := console s; network := network s |}.

Definition setLoading (b : bool) (s : State) : State :=
  {| alerts := alerts s; loading := b; error := error s;
     lastCutoffId := lastCutoffId s; counter := counter s;
     apiKey := apiKey s; showPasswordModal := showPasswordModal s;
     hasFetched := hasFetched s; interval := interval s;
     console := console s; network := network s |}.

Definition setError (e : option string) (s : State) : State :=
  {| alerts := alerts s; loading := loading s; error := e;
     lastCutoffId := lastCutoffId s; counter := counter s;
     apiKey := apiKey s; showPasswordModal := showPasswordModal s;
     hasFetched := hasFetched s; interval := interval s;
     console := console s; network := network s |}.

Definition setLastCutoffId (c : string) (s : State) : State :=
  {| alerts := alerts s; loading := loading s; error := error s;
     lastCutoffId := c; counter := counter s;
     apiKey := apiKey s; showPasswordModal := showPasswordModal s;
     hasFetched := hasFetched s; interval := interval s;
     console := console s; network := network s |}.

Definition setCounter (n : Z) (s : State) : State :=
  {| alerts := alerts s; loading := loading s; error := error s;
     lastCutoffId := lastCutoffId s; counter := n;
     apiKey := apiKey s; showPasswordModal := showPasswordModal s;
     hasFetched := hasFetched s; interval := interval s;
     console := console s; network := network s |}.

Definition setApiKey (k : option string) (s : State) : State :=
  {| alerts := alerts s; loading := loading s; error := error s;
     lastCutoffId := lastCutoffId s; counter := counter s;
     apiKey := k; showPasswordModal := showPasswordModal s;
     hasFetched := hasFetched s; interval := interval s;
     console := console s; network := network s |}.

Definition setShowPasswordModal (b : bool) (s : State) : State :=
  {| alerts := alerts s; loading := loading s; error := error s;
     lastCutoffId := lastCutoffId s; counter := counter s;
     apiKey := apiKey s; showPasswordModal := b;
     hasFetched := hasFetched s; interval := interval s;
     console := console s; network := network s |}.

Definition setHasFetched (b : bool) (s : State) : State :=
  {| alerts := alerts s; loading := loading s; error := error s;
     lastCutoffId := lastCutoffId s; counter := counter s;
     apiKey := apiKey s; showPasswordModal := showPasswordModal s;
     hasFetched := b; interval := interval s;
     console := console s; network := network s |}.

Definition setInterval (ms : option Z) (s : State) : State :=
  {| alerts := alerts s; loading := loading s; error := error s;
     lastCutoffId := lastCutoffId s; counter := counter s;
     apiKey := apiKey s; showPasswordModal := showPasswordModal s;
     hasFetched := hasFetched s; interval := ms;
     console := console s; network := network s |}.

Definition console_error (line : string) (s : State) : State :=
  {| alerts := alerts s; loading := loading s; error := error s;
     lastCutoffId := lastCutoffId s; counter := counter s;
     apiKey := apiKey s; showPasswordModal := showPasswordModal s;
     hasFetched := hasFetched s; interval := interval s;
     console := console s ++ [line]; network := network s |}.

Definition fetch (r : Request) (s : State) : State :=
  {| alerts := alerts s; loading := loading s; error := error s;
     lastCutoffId := lastCutoffId s; counter := counter s;
     apiKey := apiKey s; showPasswordModal := showPasswordModal s;
     hasFetched := hasFetched s; interval := interval s;
     console := console s; network := network s ++ [r] |}.

(** [!apiKey] is false only for a non-empty string. *)
Definition truthyKey (k : option string) : option string :=
  match k with
  | Some EmptyString | None => None
  | Some key => Some key
  end.

(** ** Exceptions of a [try] block *)

Inductive result (A : Type) : Type :=
| Ok (a : A)
| Throw (e : string).
Arguments Ok {A} a.
Arguments Throw {A} e.

#[global] Instance result_bind : MBind result := λ A B k r,
  match r with
  | Ok a => k a
  | Throw e => Throw e
  end.

#[global] Instance result_ret : MRet result := λ A a, Ok a.

(** [xs.map(f)] where [f] may throw: stops at the first exception. *)
Fixpoint Array_mapM {A B} (f : A → result B) (xs : list A) : result (list B) :=
  match xs with
  | [] => mret []
  | x :: xs' => y ← f x; ys ← Array_mapM f xs'; mret (y :: ys)
  end.

(** ** sortAlerts *)

(** [(a, b) => parseInt(b.fileId) - parseInt(a.fileId)] *)
Definition compareAlerts (a b : Alert) : number :=
  number_sub (parseInt (fileId b)) (parseInt (fileId a)).

(** [v < 0], as the sort reads the result of the comparator; [NaN] counts
    as 0. *)
Definition number_negative (v : number) : bool :=
  match v with
  | Int z => z <? 0
  | NegInfinity => true
  | NaN | Infinity => false
  end.

(** The elements after [prev] as long as none sorts before its
    predecessor, and the elements left over. *)
Fixpoint runAscending {A} (cmp : A → A → number) (prev : A) (l : list A)
  : list A * list A :=
  match l with
  | [] => ([], [])
  | cur :: l' =>
      if number_negative (cmp cur prev) then ([], l)
      else let '(run, rest) := runAscending cmp cur l' in (cur :: run, rest)
  end.

(** The elements after [prev] as long as each sorts before its
    predecessor, and the elements left over. *)
Fixpoint runDescending {A} (cmp : A → A → number) (prev : A) (l : list A)
  : list A * list A :=
  match l with
  | [] => ([], [])
  | cur :: l' =>
      if number_negative (cmp cur prev)
      then let '(run, rest) := runDescending cmp cur l' in (cur :: run, rest)
      else ([], l)
  end.

(** The run the array starts with, put in order (a strictly descending run
    is reversed), and the elements after it. *)
Definition countAndMakeRun {A} (cmp : A → A → number) (l : list A)
  : list A * list A :=
  match l with
  | x0 :: x1 :: l' =>
      if number_negative (cmp x1 x0)
      then let '(run, rest) := runDescending cmp x1 l' in
           (reverse (x0 :: x1 :: run), rest)
      else let '(run, rest) := runAscending cmp x1 l' in
           (x0 :: x1 :: run, rest)
  | _ => (l, [])
  end.

(** Binary search in [w] between [left] and [right] for the place of
    [pivot]: [right] moves down to [mid] when [pivot] sorts before
    [w[mid]], else [left] moves past [mid].  Each round shortens the
    interval, so [right - left] rounds of [fuel] are enough. *)
Fixpoint binarySearch {A} (fuel : nat) (cmp : A → A → number) (pivot : A)
    (w : list A) (left right : nat) : nat :=
  match fuel with
  | O => left
  | S fuel' =>
      if (left <? right)%nat then
        let mid := (left + (right - left) / 2)%nat in
        match w !! mid with
        | Some y =>
            if number_negative (cmp pivot y)
            then binarySearch fuel' cmp pivot w left mid
            else binarySearch fuel' cmp pivot w (mid + 1)%nat right
        | None => left
        end
      else left
  end.

(** [pivot] put at its place in [w]. *)
Definition binaryInsert {A} (cmp : A → A → number) (w : list A) (pivot : A)
  : list A :=
  let i := binarySearch (length w) cmp pivot w 0 (length w) in
  take i w ++ pivot :: drop i w.

(** [xs.sort(cmp)]: the run the array starts with, then binary insertion
    of each element after it. *)
Definition Array_sort {A} (cmp : A → A → number) (l : list A) : list A :=
  let '(run, rest) := countAndMakeRun cmp l in
  foldl (binaryInsert cmp) run rest.

Definition sortAlerts (alertsToSort : list Alert) : list Alert :=
  Array_sort compareAlerts alertsToSort.

(** ** fetchAlerts *)

Definition fileDataUrl (cutoffId : string) : string :=
  "https://hackaton-processor-001.azurewebsites.net/FileData?cutoffId="
  +:+ cutoffId +:+ "&hasAlert=false&pageSize=100&resolvedAlert=false".

(** Up to the [await fetch(...)]. *)
Definition fetchAlerts (s : State) : State :=
  match loading s, truthyKey (apiKey s) with
  | false, Some key =>
      fetch {| method := "GET"; url := fileDataUrl (lastCutoffId s);
               xApiKey := key |}
        (setError None (setLoading true s))
  | _, _ => s
  end.

(** The callback of [raw.data.map]: reading a field of [null] throws. *)
Definition toAlert (item : option Alert) : result Alert :=
  match item with
  | Some a => Ok {| fileId := fileId a; sasUrl := sasUrl a;
                    alert := alert a; timestamp := timestamp a |}
  | None => Throw "TypeError"
  end.

(** From the settled response to [data]: the part of the [try] block that
    can throw. *)
Definition fetchAlerts_data (r : Settled FileDataBody) : result (list Alert) :=
  match r with
  | Rejected reason => Throw reason
  | Responded false _ => Throw "Error: Network response was not ok"
  | Responded true FileDataNotJson => Throw "SyntaxError"
  | Responded true FileDataNoArray => Throw "TypeError"
  | Responded true (FileData items) => Array_mapM toAlert items
  end.

(** The updater passed to [setAlerts]. *)
Definition mergeAlerts (data prevAlerts : list Alert) : list Alert :=
  let existingFileIds : gset string := list_to_set (fileId <$> prevAlerts) in
  let newAlerts :=
    filter (fun a => fileId a ∉ existingFileIds) data in
  sortAlerts (prevAlerts ++ newAlerts).

(** ** Closed statements by evaluation *)

(** Closes [¬ P] for a decidable, closed [P] by running the decision. *)
Ltac refute_by_evaluation :=
  lazymatch goal with
  | |- ¬ ?P =>
      let Hf := fresh in
      assert (bool_decide P = false) as Hf by (vm_compute; reflexivity);
      exact (proj1 (bool_decide_eq_false P) Hf)
  end.

(** Closes a decidable, closed [P] by running the decision. *)
Ltac decide_by_evaluation :=
  lazymatch goal with
  | |- ?P => apply (bool_decide_unpack P); vm_compute; exact I
  end.

(** ** The engine's limit on call arguments *)

Section AlertViewer.

(** The number of arguments a call can take.  [f(...xs)] pushes every
    element of [xs] on the stack and throws a [RangeError] when there are
    too many; how many that is depends on the engine and on the stack that
    is left, so the development is parameterised by it. *)
Variable maxArguments : Z.

(** [Math.max(...xs)]. *)
Definition Math_max_spread (xs : list number) : result number :=
  if Z.of_nat (length xs) <=? maxArguments then Ok (Math_max xs)
  else Throw "RangeError: Maximum call stack size exceeded".

(** ** fetchAlerts, after the await *)

(** The [catch] block. *)
Definition fetchAlerts_catch (e : string) (s : State) : State :=
  console_error ("Fetch error: " +:+ e)
    (setError (Some "Failed to fetch alerts. Please try again later.") s).

(** After the [await]: the rest of [try], then [catch], then [finally].
    [setAlerts] is called before the argument of [setLastCutoffId] is
    evaluated, so an exception of the spread leaves the merge in place. *)
Definition fetchAlerts_resume (r : Settled FileDataBody) (s : State) : State :=
  let s' :=
    match fetchAlerts_data r with
    | Ok data =>
        if (0 <? Z.of_nat (length data)) then
          let s1 := setAlerts (mergeAlerts data) s in
          match Math_max_spread ((fun a => parseInt (fileId a)) <$> data) with
          | Ok maxFileId => setLastCutoffId (number_toString maxFileId) s1
          | Throw e => fetchAlerts_catch e s1
          end
        else s
    | Throw e => fetchAlerts_catch e s
    end in
  setLoading false s'.

(** ** resolveAlert *)

Definition resolveUrl (id : string) : string :=
  "https://hackaton-processor-001.azurewebsites.net/resolvealert?fileId="
  +:+ id.

Definition resolveAlert (id : string) (s : State) : State :=
  match truthyKey (apiKey s) with
  | Some key =>
      fetch {| method := "POST"; url := resolveUrl id; xApiKey := key |} s
  | None => s
  end.

Definition resolveAlert_response (r : Settled unit) : result unit :=
  match r with
  | Rejected reason => Throw reason
  | Responded false _ => Throw "Error: Failed to resolve alert"
  | Responded true _ => Ok tt
  end.

Definition removeAlert (id : string) (prevAlerts : list Alert) : list Alert :=
  sortAlerts (filter (fun a => fileId a ≠ id) prevAlerts).

Definition resolveAlert_resume (id : string) (r : Settled unit) (s : State)
  : State :=
  match resolveAlert_response r with
  | Ok _ => setAlerts (removeAlert id) s
  | Throw e =>
      setError (Some "Failed to resolve alert. Please try again.")
        (console_error ("Error resolving alert: " +:+ e) s)
  end.

Definition handleReport (id : string) : State → State := resolveAlert id.
Definition handleFalsePositive (id : string) : State → State := resolveAlert id.

(** ** Counter poll *)

Definition counterUrl : string :=
  "https://hackaton-processor-001.azurewebsites.net/Counter?counterId=unique_counter".

Definition counterPeriod : Z := 2000.

(** The interval callback up to its [await]. *)
Definition counterTick (s : State) : State :=
  match truthyKey (apiKey s) with
  | Some key =>
      fetch {| method := "GET"; url := counterUrl; xApiKey := key |} s
  | None => s
  end.

(** [xs.filter(f)] where [f] may throw. *)
Fixpoint Array_filterM {A} (f : A → result bool) (xs : list A)
  : result (list A) :=
  match xs with
  | [] => mret []
  | x :: xs' =>
      keep ← f x; ys ← Array_filterM f xs';
      mret (if keep : bool then x :: ys else ys)
  end.

(** [row => row.rowKey === 'unique_counter']: reading a field of [null]
    throws. *)
Definition isUniqueCounter (row : option CounterRow) : result bool :=
  match row with
  | Some r => Ok (bool_decide (rowKey r = "unique_counter"))
  | None => Throw "TypeError"
  end.

(** [data.data.filter(row => row.rowKey === 'unique_counter')[0].count] *)
Definition counterTick_count (r : Settled CounterBody) : result Z :=
  match r with
  | Rejected reason => Throw reason
  | Responded false _ => Throw "Error: Failed to fetch counter"
  | Responded true CounterNotJson => Throw "SyntaxError"
  | Responded true CounterNoArray => Throw "TypeError"
  | Responded true (CounterData rows) =>
      matching ← Array_filterM isUniqueCounter rows;
      match matching with
      | Some row :: _ => Ok (count row)
      | _ => Throw "TypeError"
      end
  end.

Definition counterTick_resume (r : Settled CounterBody) (s : State) : State :=
  match counterTick_count r with
  | Ok n => setCounter n s
  | Throw e => console_error ("Error fetching counter: " +:+ e) s
  end.

(** The effect arms the timer; its cleanup clears it. *)
Definition counterEffect (s : State) : State := setInterval (Some counterPeriod) s.
Definition counterEffect_cleanup (s : State) : State := setInterval None s.

(** ** Credential entry and the fetch on mount *)

(** The effect keyed on [apiKey]. *)
Definition mountEffect (s : State) : State :=
  match hasFetched s, truthyKey (apiKey s) with
  | false, Some _ => setHasFetched true (fetchAlerts s)
  | _, _ => s
  end.

(** [handlePasswordSubmit], then the effects that a changed [apiKey]
    re-runs: the cleanup of the counter effect, the mount effect, the
    counter effect.  The button that calls the handler and the input it
    reads are rendered with the modal only: once the modal is closed
    nothing calls it, and a call would throw at [.value] before any
    setter. *)
Definition handlePasswordSubmit (inputPassword : string) (s : State) : State :=
  if showPasswordModal s then
    let s' := setShowPasswordModal false (setApiKey (Some inputPassword) s) in
    if decide (apiKey s = Some inputPassword) then s'
    else counterEffect (mountEffect (counterEffect_cleanup s'))
  else s.

(** ** Event loop *)

Inductive Event : Type :=
| PasswordSubmit (inputPassword : string)
| LoadMore
| FetchSettled (r : Settled FileDataBody)
| Resolve (id : string)
| ResolveSettled (id : string) (r : Settled unit)
| Tick
| CounterSettled (r : Settled CounterBody).

Definition step (s : State) (e : Event) : State :=
  match e with
  | PasswordSubmit k => handlePasswordSubmit k s
  | LoadMore => fetchAlerts s
  | FetchSettled r => fetchAlerts_resume r s
  | Resolve id => resolveAlert id s
  | ResolveSettled id r => resolveAlert_resume id r s
  | Tick => if interval s is Some _ then counterTick s else s
  | CounterSettled r => counterTick_resume r s
  end.

Definition run (es : list Event) (s : State) : State := foldl step s es.

(** ** Predicates on the collection, the pages and the cutoff *)

Definition fileIds (l : list Alert) : list string := fileId <$> l.

(** The id parses, and to an integer a double holds exactly. *)
Definition safeId (id : string) : Prop :=
  match parseInt id with
  | Int z => Z.abs z ≤ 2 ^ 53 - 1
  | _ => False
  end.

#[global] Instance safeId_dec id : Decision (safeId id).
Proof. unfold safeId. destruct (parseInt id); apply _. Defined.

(** The id is the text JavaScript prints for its own value: no leading
    zero, sign, blank or trailing text. *)
Definition canonicalId (id : string) : Prop :=
  safeId id ∧ id = number_toString (parseInt id).

#[global] Instance canonicalId_dec id : Decision (canonicalId id).
Proof. unfold canonicalId. apply _. Defined.

(** [a] may stand before [b]: both ids are integers and [a]'s is not the
    smaller one. *)
Definition idGe (a b : Alert) : Prop :=
  match parseInt (fileId a), parseInt (fileId b) with
  | Int x, Int y => y ≤ x
  | _, _ => False
  end.

(** [a] must stand before [b]: [a]'s integer id is the larger one. *)
Definition idGt (a b : Alert) : Prop :=
  match parseInt (fileId a), parseInt (fileId b) with
  | Int x, Int y => y < x
  | _, _ => False
  end.

#[global] Instance idGe_dec a b : Decision (idGe a b).
Proof. unfold idGe. destruct (parseInt (fileId a)), (parseInt (fileId b)); apply _. Defined.

#[global] Instance idGt_dec a b : Decision (idGt a b).
Proof. unfold idGt. destruct (parseInt (fileId a)), (parseInt (fileId b)); apply _. Defined.

(** Sorted descending by the integer value of [fileId]. *)
Definition descending (l : list Alert) : Prop := StronglySorted idGe l.

(** Sorted strictly descending by the integer value of [fileId]. *)
Definition strictlyDescending (l : list Alert) : Prop := StronglySorted idGt l.

(** Each fileId at most once. *)
Definition uniqueIds (l : list Alert) : Prop := NoDup (fileIds l).

(** The page a [FetchSettled] event delivers, when its [try] block gets
    that far. *)
Definition fetchedPage (e : Event) : option (list Alert) :=
  match e with
  | FetchSettled r =>
      match fetchAlerts_data r with
      | Ok data => Some data
      | Throw _ => None
      end
  | _ => None
  end.

(** Every page delivered during [es] satisfies [P]. *)
Definition pagesSatisfy (P : list Alert → Prop) (es : list Event) : Prop :=
  Forall (fun e => match fetchedPage e with
                   | Some data => P data
                   | None => True
                   end) es.

(** A successful response carrying the records [data]. *)
Definition pageOf (data : list Alert) : Settled FileDataBody :=
  Responded true (FileData (Some <$> data)).

(** The id of [a] is an integer greater than [c]: what the server is to
    return for [cutoffId=c]. *)
Definition idAbove (c : Z) (a : Alert) : Prop :=
  match parseInt (fileId a) with
  | Int v => c < v
  | _ => False
  end.

#[global] Instance idAbove_dec c a : Decision (idAbove c a).
Proof. unfold idAbove. destruct (parseInt (fileId a)); apply _. Defined.

(** The cutoff reads as the largest integer id of the page. *)
Definition cutoffIsPageMax (data : list Alert) (s : State) : Prop :=
  ∃ m, parseInt (lastCutoffId s) = Int m
       ∧ lastCutoffId s = number_toString (Int m)
       ∧ (∃ a, a ∈ data ∧ parseInt (fileId a) = Int m)
       ∧ ∀ a v, a ∈ data → parseInt (fileId a) = Int v → v ≤ m.

(** What a failed fetch leaves behind: collection and cutoff as they were,
    guard released, an error published. *)
Definition fetchAborted (s s' : State) : Prop :=
  alerts s' = alerts s ∧ lastCutoffId s' = lastCutoffId s
  ∧ loading s' = false ∧ is_Some (error s').

(** The id parses to an integer. *)
Definition numeric (a : Alert) : Prop := ∃ z, parseInt (fileId a) = Int z.

(** The id of [a] has the integer value [k]. *)
Definition valueIs (k : Z) (a : Alert) : Prop := parseInt (fileId a) = Int k.

#[global] Instance valueIs_dec k a : Decision (valueIs k a).
Proof. unfold valueIs. apply _. Defined.

(** Horner reading of a decimal numeral, as [parseDigits] accumulates it. *)
Fixpoint uintZ (acc : Z) (d : Decimal.uint) : Z :=
  match d with
  | Decimal.Nil => acc
  | Decimal.D0 l => uintZ (10 * acc + 0) l
  | Decimal.D1 l => uintZ (10 * acc + 1) l
  | Decimal.D2 l => uintZ (10 * acc + 2) l
  | Decimal.D3 l => uintZ (10 * acc + 3) l
  | Decimal.D4 l => uintZ (10 * acc + 4) l
  | Decimal.D5 l => uintZ (10 * acc + 5) l
  | Decimal.D6 l => uintZ (10 * acc + 6) l
  | Decimal.D7 l => uintZ (10 * acc + 7) l
  | Decimal.D8 l => uintZ (10 * acc + 8) l
  | Decimal.D9 l => uintZ (10 * acc + 9) l
  end.

(** A body the [try] block cannot read: not JSON, no [data] array, or a
    [null] entry in the array. *)
Definition malformedBody (body : FileDataBody) : Prop :=
  match body with
  | FileDataNotJson | FileDataNoArray => True
  | FileData items => None ∈ items
  end.

#[global] Instance malformedBody_dec body : Decision (malformedBody body).
Proof. destruct body; apply _. Defined.

(** ** Deciding the properties on concrete collections *)

#[global] Instance descending_dec l : Decision (descending l).
Proof. unfold descending. apply _. Defined.

#[global] Instance strictlyDescending_dec l : Decision (strictlyDescending l).
Proof. unfold strictlyDescending. apply _. Defined.

#[global] Instance uniqueIds_dec l : Decision (uniqueIds l).
Proof. unfold uniqueIds. apply _. Defined.

#[global] Instance pagesSatisfy_dec (P : list Alert → Prop)
  `{!∀ d, Decision (P d)} es : Decision (pagesSatisfy P es).
Proof.
  unfold pagesSatisfy. apply Forall_dec. intros e.
  destruct (fetchedPage e); apply _.
Defined.

(** ** Sample records *)

Definition sampleAlert (id : string) : Alert :=
  {| fileId := id; sasUrl := "https://blob.example/" +:+ id;
     alert := "No helmet"; timestamp := "2024-05-01T10:00:00Z" |}.

Definition samplePage (ids : list string) : Settled FileDataBody :=
  pageOf (sampleAlert <$> ids).

(** The fileIds [first], [first + 1], ... of [n] records. *)
Fixpoint consecutiveIds (first : Z) (n : nat) : list string :=
  match n with
  | O => []
  | S n' => number_toString (Int first) :: consecutiveIds (first + 1) n'
  end.

(** The number of call arguments taken by the engine of the sample runs. *)
Definition sampleLimit : Z := 65536.

(** ** The image overlay *)

(** [setEnlargedImageId(fileId)] on the cell [enlargedImageId], which is
    kept beside [State]. *)
Definition toggleEnlargedImage (id : option string)
    (enlargedImageId : option string) : option string := id.

(** [xs.find(p)]: the first element that satisfies [p], or [undefined]. *)
Fixpoint Array_find {A} (p : A → bool) (xs : list A) : option A :=
  match xs with
  | [] => None
  | x :: xs' => if p x then Some x else Array_find p xs'
  end.

(** [alerts.find((alert) => alert.fileId === enlargedImageId)?.sasUrl] *)
Definition enlargedImageSrc (alerts : list Alert) (enlargedImageId : string)
  : option string :=
  sasUrl <$> Array_find (fun a => bool_decide (fileId a = enlargedImageId)) alerts.

(** [{enlargedImageId && (... <img src=... /> ...)}]: [None] when the
    overlay is not rendered, else the [src] of its image, which may be
    [undefined]. *)
Definition overlay (alerts : list Alert) (enlargedImageId : option string)
  : option (option string) :=
  match enlargedImageId with
  | None | Some EmptyString => None
  | Some id => Some (enlargedImageSrc alerts id)
  end.

(** ** Predicates on runs *)

(** The request is a page request of [fetchAlerts]. *)
Definition isFileDataRequest (r : Request) : bool :=
  String.prefix
    "https://hackaton-processor-001.azurewebsites.net/FileData?cutoffId="
    (url r).

Definition fileDataRequests (s : State) : nat :=
  length (filter (fun r => isFileDataRequest r = true) (network s)).

Definition isFetchSettled (e : Event) : bool :=
  match e with
  | FetchSettled _ => true
  | _ => false
  end.

(** The event is a trigger of the user or of the timer, not a response and
    not a key entry. *)
Definition isTrigger (e : Event) : bool :=
  match e with
  | LoadMore | Resolve _ | Tick => true
  | _ => false
  end.

(** The event belongs to the counter poll. *)
Definition isCounterEvent (e : Event) : bool :=
  match e with
  | Tick | CounterSettled _ => true
  | _ => false
  end.

(** The event is one that can start a fetch. *)
Definition startsFetch (e : Event) : bool :=
  match e with
  | LoadMore | PasswordSubmit _ => true
  | _ => false
  end.

(** The count the last successful counter response of [es] carried. *)
Definition lastCount (es : list Event) : option Z :=
  foldl (fun acc e =>
           match e with
           | CounterSettled r =>
               match counterTick_count r with
               | Ok n => Some n
               | Throw _ => acc
               end
           | _ => acc
           end) None es.

(** * Properties *)

(** ** parseInt and toString on examples *)

Example parseInt_42 : parseInt "42" = Int 42.
Proof. reflexivity. Qed.
Example parseInt_lead0 : parseInt "07" = Int 7.
Proof. reflexivity. Qed.
Example parseInt_neg : parseInt "  -12px" = Int (-12).
Proof. reflexivity. Qed.
Example parseInt_hex : parseInt "0x1F" = Int 31.
Proof. reflexivity. Qed.
Example parseInt_abc : parseInt "abc" = NaN.
Proof. reflexivity. Qed.
Example parseInt_empty : parseInt "" = NaN.
Proof. reflexivity. Qed.
Example toString_42 : number_toString (Int 42) = "42".
Proof. reflexivity. Qed.
Example toString_neg : number_toString (Int (-5)) = "-5".
Proof. reflexivity. Qed.
Example toString_0 : number_toString (Int 0) = "0".
Proof. reflexivity. Qed.

(** ** The sort *)

(** Next to an id that does not parse the comparator returns [NaN]; the
    order is then the one V8 gives. *)
Example sortAlerts_unparsable :
  fileIds (sortAlerts (sampleAlert <$> ["1"; "2"; "abc"; "3"]))
  = ["3"; "2"; "1"; "abc"]
  ∧ fileIds (sortAlerts (sampleAlert <$> ["1"; "abc"; "2"]))
    = ["1"; "abc"; "2"].
Proof. split; vm_compute; reflexivity. Qed.

Lemma filter_none {A} (P : A → Prop) `{!∀ x, Decision (P x)} (l : list A) :
  Forall (fun x => ¬ P x) l → filter P l = [].
Proof.
  induction 1 as [|x l Hx Hl IH]; [done|]. by rewrite filter_cons_False.
Qed.

Lemma runAscending_app {A} (cmp : A → A → number) prev l run rest :
  runAscending cmp prev l = (run, rest) → l = (run ++ rest)%list.
Proof.
  revert prev run rest. induction l as [|cur l IH]; intros prev run rest; simpl.
  - by intros [= <- <-].
  - destruct (number_negative (cmp cur prev)); [by intros [= <- <-]|].
    destruct (runAscending cmp cur l) as [run' rest'] eqn:E.
    intros [= <- <-]. simpl. f_equal. by eapply IH.
Qed.

Lemma runDescending_app {A} (cmp : A → A → number) prev l run rest :
  runDescending cmp prev l = (run, rest) → l = (run ++ rest)%list.
Proof.
  revert prev run rest. induction l as [|cur l IH]; intros prev run rest; simpl.
  - by intros [= <- <-].
  - destruct (number_negative (cmp cur prev)); [|by intros [= <- <-]].
    destruct (runDescending cmp cur l) as [run' rest'] eqn:E.
    intros [= <- <-]. simpl. f_equal. by eapply IH.
Qed.

Lemma countAndMakeRun_Permutation {A} (cmp : A → A → number) l run rest :
  countAndMakeRun cmp l = (run, rest) → (run ++ rest)%list ≡ₚ l.
Proof.
  destruct l as [|x0 [|x1 l]]; simpl; try by intros [= <- <-]; rewrite app_nil_r.
  destruct (number_negative (cmp x1 x0)).
  - destruct (runDescending cmp x1 l) as [run' rest'] eqn:E.
    intros [= <- <-]. apply runDescending_app in E as ->.
    by rewrite reverse_Permutation.
  - destruct (runAscending cmp x1 l) as [run' rest'] eqn:E.
    intros [= <- <-]. by apply runAscending_app in E as ->.
Qed.

Lemma binaryInsert_Permutation {A} (cmp : A → A → number) w pivot :
  binaryInsert cmp w pivot ≡ₚ pivot :: w.
Proof.
  unfold binaryInsert. rewrite <- Permutation_middle. by rewrite take_drop.
Qed.

Lemma foldl_binaryInsert_Permutation {A} (cmp : A → A → number) rest w :
  foldl (binaryInsert cmp) w rest ≡ₚ (w ++ rest)%list.
Proof.
  revert w. induction rest as [|x rest IH]; intros w; simpl.
  - by rewrite app_nil_r.
  - rewrite IH, binaryInsert_Permutation. by rewrite <- Permutation_middle.
Qed.

Lemma Array_sort_Permutation {A} (cmp : A → A → number) l :
  Array_sort cmp l ≡ₚ l.
Proof.
  unfold Array_sort. destruct (countAndMakeRun cmp l) as [run rest] eqn:E.
  rewrite foldl_binaryInsert_Permutation.
  by apply countAndMakeRun_Permutation in E.
Qed.

Lemma sortAlerts_Permutation l : sortAlerts l ≡ₚ l.
Proof. apply Array_sort_Permutation. Qed.

Lemma sortAlerts_fileIds l : fileIds (sortAlerts l) ≡ₚ fileIds l.
Proof. unfold fileIds. by rewrite sortAlerts_Permutation. Qed.

Lemma safeId_numeric a : safeId (fileId a) → numeric a.
Proof.
  unfold safeId, numeric. destruct (parseInt (fileId a)); try done. eauto.
Qed.

Lemma Forall_safeId_numeric l : Forall safeId (fileIds l) → Forall numeric l.
Proof.
  unfold fileIds. rewrite Forall_fmap. intros H.
  eapply Forall_impl; [exact H|]. intros a. apply safeId_numeric.
Qed.

Lemma sortAlerts_numeric l : Forall numeric l → Forall numeric (sortAlerts l).
Proof. intros. by rewrite sortAlerts_Permutation. Qed.

Lemma idGe_numeric_l a b : idGe a b → numeric a.
Proof.
  unfold idGe, numeric. destruct (parseInt (fileId a)); try done. eauto.
Qed.

Lemma idGe_numeric_r a b : idGe a b → numeric b.
Proof.
  unfold idGe, numeric.
  destruct (parseInt (fileId a)), (parseInt (fileId b)); try done. eauto.
Qed.

Lemma idGe_trans a b c : idGe a b → idGe b c → idGe a c.
Proof.
  unfold idGe.
  destruct (parseInt (fileId a)), (parseInt (fileId b)), (parseInt (fileId c));
    try done.
  lia.
Qed.

#[local] Instance idGe_transitive : Transitive idGe.
Proof. intros a b c. apply idGe_trans. Qed.

Lemma idGt_idGe a b : idGt a b → idGe a b.
Proof.
  unfold idGt, idGe.
  destruct (parseInt (fileId a)), (parseInt (fileId b)); try done. lia.
Qed.

(** On ids that parse, the sign of the comparator is the order of the
    values. *)
Lemma compareAlerts_negative x y :
  numeric x → numeric y →
  number_negative (compareAlerts x y) = true ↔ idGt x y.
Proof.
  intros [a Ha] [b Hb]. unfold compareAlerts, idGt. rewrite Ha, Hb. simpl.
  rewrite Z.ltb_lt. lia.
Qed.

Lemma compareAlerts_not_negative x y :
  numeric x → numeric y →
  number_negative (compareAlerts x y) = false ↔ idGe y x.
Proof.
  intros [a Ha] [b Hb]. unfold compareAlerts, idGe. rewrite Ha, Hb. simpl.
  rewrite Z.ltb_ge. lia.
Qed.

Lemma Forall_filter_keep {A} (Q P : A → Prop) `{!∀ x, Decision (P x)} l :
  Forall Q l → Forall Q (filter P l).
Proof.
  rewrite !Forall_forall. intros Hall y [_ Hy]%list_elem_of_filter.
  by apply Hall.
Qed.

Lemma descending_filter (P : Alert → Prop) `{!∀ x, Decision (P x)} l :
  descending l → descending (filter P l).
Proof.
  induction 1 as [|x l Hs IH Hx]; [constructor|].
  rewrite filter_cons. destruct (decide (P x)); [|done].
  constructor; [done|]. by apply Forall_filter_keep.
Qed.

Lemma strictlyDescending_descending l : strictlyDescending l → descending l.
Proof.
  induction 1 as [|x l Hs IH Hx]; constructor; [done|].
  eapply Forall_impl; [exact Hx|]. apply idGt_idGe.
Qed.

Lemma valueIs_descending k l : Forall (valueIs k) l → descending l.
Proof.
  induction 1 as [|x l Hx Hl IH]; constructor; [done|].
  eapply Forall_impl; [exact Hl|]. intros y Hy.
  unfold idGe, valueIs in *. rewrite Hx, Hy. lia.
Qed.

(** A descending list with two records or more holds only ids that
    parse. *)
Lemma descending_numeric l :
  descending l → (2 ≤ length l)%nat → Forall numeric l.
Proof.
  intros Hd Hlen. destruct Hd as [|x l Hd Hx]; [constructor|].
  destruct l as [|y l]; [simpl in Hlen; lia|].
  constructor.
  - apply Forall_cons in Hx as [Hxy _]. by eapply idGe_numeric_l.
  - eapply Forall_impl; [exact Hx|]. intros z. apply idGe_numeric_r.
Qed.

(** *** The first run *)

Lemma runAscending_Sorted prev l run rest :
  Forall numeric (prev :: l) →
  runAscending compareAlerts prev l = (run, rest) →
  Sorted idGe (prev :: run).
Proof.
  revert prev run rest. induction l as [|cur l IH]; intros prev run rest Hn; simpl.
  - intros [= <- <-]. repeat constructor.
  - apply Forall_cons in Hn as [Hp Hn]. pose proof Hn as Hn'.
    apply Forall_cons in Hn' as [Hc _].
    destruct (number_negative (compareAlerts cur prev)) eqn:Ec;
      [intros [= <- <-]; repeat constructor|].
    destruct (runAscending compareAlerts cur l) as [run' rest'] eqn:E.
    intros [= <- <-]. apply compareAlerts_not_negative in Ec; [|done..].
    constructor; [by eapply IH|]. by constructor.
Qed.

Lemma runDescending_Sorted prev l run rest :
  Forall numeric (prev :: l) →
  runDescending compareAlerts prev l = (run, rest) →
  Sorted (flip idGt) (prev :: run).
Proof.
  revert prev run rest. induction l as [|cur l IH]; intros prev run rest Hn; simpl.
  - intros [= <- <-]. repeat constructor.
  - apply Forall_cons in Hn as [Hp Hn]. pose proof Hn as Hn'.
    apply Forall_cons in Hn' as [Hc _].
    destruct (number_negative (compareAlerts cur prev)) eqn:Ec;
      [|intros [= <- <-]; repeat constructor].
    destruct (runDescending compareAlerts cur l) as [run' rest'] eqn:E.
    intros [= <- <-]. apply compareAlerts_negative in Ec; [|done..].
    constructor; [by eapply IH|]. by constructor.
Qed.

Lemma idGt_trans a b c : idGt a b → idGt b c → idGt a c.
Proof.
  unfold idGt.
  destruct (parseInt (fileId a)), (parseInt (fileId b)), (parseInt (fileId c));
    try done.
  lia.
Qed.

#[local] Instance idGt_transitive : Transitive idGt.
Proof. intros a b c. apply idGt_trans. Qed.

(** In a strictly descending list each value occurs once at most, so that
    reversing the list does not change which record of a value comes
    first. *)
Lemma strictlyDescending_filter_valueIs k l :
  strictlyDescending l →
  reverse (filter (valueIs k) l) = filter (valueIs k) l.
Proof.
  intros Hs.
  assert (length (filter (valueIs k) l) ≤ 1)%nat as Hlen.
  { induction Hs as [|x l Hs IH Hx]; [simpl; lia|].
    rewrite filter_cons. destruct (decide (valueIs k x)) as [Hk|]; [|done].
    rewrite (filter_none (valueIs k) l); [simpl; lia|].
    eapply Forall_impl; [exact Hx|]. intros y Hxy Hy.
    unfold idGt, valueIs in *. rewrite Hk, Hy in Hxy. lia. }
  destruct (filter (valueIs k) l) as [|a [|b f]]; try done.
  simpl in Hlen. lia.
Qed.

Lemma countAndMakeRun_descending l run rest :
  Forall numeric l →
  countAndMakeRun compareAlerts l = (run, rest) →
  descending run
  ∧ ∀ k, filter (valueIs k) (run ++ rest)%list = filter (valueIs k) l.
Proof.
  intros Hn. destruct l as [|x0 [|x1 l]]; simpl.
  - intros [= <- <-]. split; [constructor|done].
  - intros [= <- <-]. split; [repeat constructor|done].
  - pose proof Hn as Hn'. apply Forall_cons in Hn' as [H0 Hn'].
    pose proof Hn' as Hn''. apply Forall_cons in Hn'' as [H1 _].
    destruct (number_negative (compareAlerts x1 x0)) eqn:Ec.
    + destruct (runDescending compareAlerts x1 l) as [run' rest'] eqn:E.
      intros [= <- <-].
      apply compareAlerts_negative in Ec; [|done..].
      assert (Sorted (flip idGt) (x0 :: x1 :: run')) as Hs.
      { constructor; [by eapply runDescending_Sorted|]. by constructor. }
      apply Sorted_reverse in Hs.
      apply (Sorted_StronglySorted idGt) in Hs.
      pose proof (runDescending_app _ _ _ _ _ E) as ->.
      split; [by apply strictlyDescending_descending|].
      intros k.
      assert (filter (valueIs k) (reverse (x0 :: x1 :: run'))
              = filter (valueIs k) (x0 :: x1 :: run')) as Hrev.
      { rewrite <- (strictlyDescending_filter_valueIs k _ Hs).
        rewrite filter_reverse. apply reverse_involutive. }
      change (x0 :: x1 :: (run' ++ rest')%list)
        with ((x0 :: x1 :: run') ++ rest')%list.
      by rewrite !filter_app, Hrev.
    + destruct (runAscending compareAlerts x1 l) as [run' rest'] eqn:E.
      intros [= <- <-].
      apply compareAlerts_not_negative in Ec; [|done..].
      pose proof (runAscending_app _ _ _ _ _ E) as ->.
      split; [|done].
      apply (Sorted_StronglySorted idGe).
      constructor; [by eapply runAscending_Sorted|]. by constructor.
Qed.

(** *** Binary insertion *)

(** The search never runs out of fuel: with enough of it, more changes
    nothing. *)
Lemma binarySearch_fuel {A} (cmp : A → A → number) pivot (w : list A)
    fuel fuel' left right :
  (right - left ≤ fuel)%nat → (right - left ≤ fuel')%nat →
  binarySearch fuel cmp pivot w left right
  = binarySearch fuel' cmp pivot w left right.
Proof.
  revert fuel' left right.
  induction fuel as [|fuel IH]; intros [|fuel'] left right H1 H2;
    cbn [binarySearch]; try done.
  - destruct (Nat.ltb_spec left right); [lia|done].
  - destruct (Nat.ltb_spec left right); [lia|done].
  - destruct (Nat.ltb_spec left right) as [Hlt|]; [|done].
    set (mid := (left + (right - left) / 2)%nat).
    assert (left ≤ mid < right)%nat as Hmid.
    { subst mid. split; [lia|].
      assert ((right - left) / 2 < right - left)%nat; [|lia].
      apply Nat.div_lt; lia. }
    destruct (w !! mid); [|done].
    destruct (number_negative (cmp pivot a)); apply IH; lia.
Qed.

Lemma descending_lookup w j j' a b :
  descending w → w !! j = Some a → w !! j' = Some b → (j < j')%nat → idGe a b.
Proof.
  intros Hd. revert j j'. induction Hd as [|x l Hd IH Hx]; intros j j' Ha Hb Hlt.
  - done.
  - destruct j' as [|j']; [lia|]. destruct j as [|j]; simpl in *.
    + injection Ha as ->. rewrite Forall_forall in Hx. apply Hx.
      by eapply list_elem_of_lookup_2.
    + apply (IH j j'); [done..|lia].
Qed.

Lemma idGt_idGe_trans a b c : idGt a b → idGe b c → idGt a c.
Proof.
  unfold idGt, idGe.
  destruct (parseInt (fileId a)), (parseInt (fileId b)), (parseInt (fileId c));
    try done.
  lia.
Qed.

(** On a descending list the search stops between the records that are
    not smaller than the pivot and those that are. *)
Lemma binarySearch_spec pivot w fuel left right :
  numeric pivot → Forall numeric w → descending w →
  (left ≤ right ≤ length w)%nat → (right - left ≤ fuel)%nat →
  (∀ j y, (j < left)%nat → w !! j = Some y → idGe y pivot) →
  (∀ j y, (right ≤ j)%nat → w !! j = Some y → idGt pivot y) →
  let i := binarySearch fuel compareAlerts pivot w left right in
  (∀ j y, (j < i)%nat → w !! j = Some y → idGe y pivot)
  ∧ (∀ j y, (i ≤ j)%nat → w !! j = Some y → idGt pivot y).
Proof.
  intros Hp Hw Hd. revert left right.
  induction fuel as [|fuel IH]; intros left right Hb Hfuel Hlo Hhi; cbn [binarySearch].
  { assert (left = right) as -> by lia. done. }
  destruct (left <? right)%nat eqn:Elt.
  2:{ apply Nat.ltb_ge in Elt. assert (left = right) as -> by lia. done. }
  apply Nat.ltb_lt in Elt.
  set (mid := (left + (right - left) / 2)%nat).
  assert (left ≤ mid < right)%nat as Hmid.
  { subst mid. split; [lia|].
    assert ((right - left) / 2 < right - left)%nat; [|lia].
    apply Nat.div_lt; lia. }
  destruct (lookup_lt_is_Some_2 w mid) as [y Hy]; [lia|]. rewrite Hy.
  assert (numeric y) as Hny.
  { rewrite Forall_forall in Hw. apply Hw. by eapply list_elem_of_lookup_2. }
  destruct (number_negative (compareAlerts pivot y)) eqn:Ec.
  - apply compareAlerts_negative in Ec; [|done..].
    apply IH; [lia|lia|done|].
    intros j z Hj Hz. destruct (decide (j = mid)) as [->|Hne].
    + rewrite Hy in Hz. by injection Hz as <-.
    + eapply idGt_idGe_trans; [exact Ec|].
      apply (descending_lookup w mid j); [done..|lia].
  - apply compareAlerts_not_negative in Ec; [|done..].
    apply IH; [lia|lia| |done].
    intros j z Hj Hz. destruct (decide (j = mid)) as [->|Hne].
    + rewrite Hy in Hz. by injection Hz as <-.
    + destruct (decide (j < left)%nat); [by eapply Hlo|].
      eapply idGe_trans; [|exact Ec].
      apply (descending_lookup w j mid); [done..|lia].
Qed.

Lemma binaryInsert_split pivot w :
  numeric pivot → Forall numeric w → descending w →
  ∃ i, binaryInsert compareAlerts w pivot = (take i w ++ pivot :: drop i w)%list
       ∧ Forall (fun y => idGe y pivot) (take i w)
       ∧ Forall (idGt pivot) (drop i w).
Proof.
  intros Hp Hw Hd.
  exists (binarySearch (length w) compareAlerts pivot w 0 (length w)).
  split; [done|].
  assert (∀ j y, (j < 0)%nat → w !! j = Some y → idGe y pivot) as H0
    by (intros j y Hj; lia).
  assert (∀ j y, (length w ≤ j)%nat → w !! j = Some y → idGt pivot y) as H1
    by (intros j y Hj Hy; apply lookup_lt_Some in Hy; lia).
  destruct (binarySearch_spec pivot w (length w) 0 (length w) Hp Hw Hd
              ltac:(lia) ltac:(lia) H0 H1) as [Hlo Hhi].
  split; apply Forall_lookup.
  - intros j y [Hy Hj]%lookup_take_Some. by eapply Hlo.
  - intros j y Hy. rewrite lookup_drop in Hy. eapply Hhi; [|exact Hy]. lia.
Qed.

Lemma binaryInsert_descending pivot w :
  numeric pivot → Forall numeric w → descending w →
  descending (binaryInsert compareAlerts w pivot)
  ∧ ∀ k, filter (valueIs k) (binaryInsert compareAlerts w pivot)
         = filter (valueIs k) (w ++ [pivot])%list.
Proof.
  intros Hp Hw Hd.
  destruct (binaryInsert_split pivot w Hp Hw Hd) as (i & -> & Hlo & Hhi).
  pose proof Hd as Hd'. rewrite <- (take_drop i w) in Hd'.
  apply StronglySorted_app in Hd' as (Hcross & Ht & Hdr).
  split.
  - apply StronglySorted_app_2; [|done|].
    + intros x1 x2 H1 [->|H2]%elem_of_cons; [|by apply Hcross].
      rewrite Forall_forall in Hlo. by apply Hlo.
    + constructor; [done|]. eapply Forall_impl; [exact Hhi|].
      intros y. apply idGt_idGe.
  - intros k. rewrite <- (take_drop i w) at 3.
    rewrite !filter_app, filter_cons, (filter_cons _ pivot []), filter_nil.
    destruct (decide (valueIs k pivot)) as [Hk|].
    + rewrite (filter_none (valueIs k) (drop i w)); [by rewrite app_nil_r|].
      eapply Forall_impl; [exact Hhi|]. intros y Hy Hyk.
      unfold idGt, valueIs in *. rewrite Hk, Hyk in Hy. lia.
    + by rewrite app_nil_r.
Qed.

Lemma foldl_binaryInsert_descending rest w :
  Forall numeric w → Forall numeric rest → descending w →
  descending (foldl (binaryInsert compareAlerts) w rest)
  ∧ ∀ k, filter (valueIs k) (foldl (binaryInsert compareAlerts) w rest)
         = filter (valueIs k) (w ++ rest)%list.
Proof.
  revert w. induction rest as [|x rest IH]; intros w Hw Hr Hd; simpl.
  - split; [done|]. intros k. by rewrite app_nil_r.
  - apply Forall_cons in Hr as [Hx Hr].
    destruct (binaryInsert_descending x w Hx Hw Hd) as [Hd' Hst].
    destruct (IH (binaryInsert compareAlerts w x)) as [Hd'' Hst'']; [|done..|].
    { rewrite binaryInsert_Permutation. by constructor. }
    split; [done|]. intros k. rewrite Hst'', !filter_app, Hst, filter_app.
    rewrite <- app_assoc. f_equal.
    change (x :: rest) with ([x] ++ rest)%list. by rewrite filter_app.
Qed.

Lemma sortAlerts_descending l : Forall numeric l → descending (sortAlerts l).
Proof.
  intros Hl. unfold sortAlerts, Array_sort.
  destruct (countAndMakeRun compareAlerts l) as [run rest] eqn:E.
  pose proof (countAndMakeRun_Permutation _ _ _ _ E) as Hperm.
  rewrite <- Hperm in Hl. apply Forall_app in Hl as [Hrun Hrest].
  destruct (countAndMakeRun_descending l run rest) as [Hd _]; [|done|].
  { rewrite <- Hperm. by apply Forall_app. }
  by apply foldl_binaryInsert_descending.
Qed.

(** Records of equal value keep their relative order. *)
Lemma sortAlerts_stable k l :
  Forall numeric l → filter (valueIs k) (sortAlerts l) = filter (valueIs k) l.
Proof.
  intros Hl. unfold sortAlerts, Array_sort.
  destruct (countAndMakeRun compareAlerts l) as [run rest] eqn:E.
  pose proof (countAndMakeRun_Permutation _ _ _ _ E) as Hperm.
  destruct (countAndMakeRun_descending l run rest Hl E) as [Hd Hst].
  rewrite <- Hperm in Hl. apply Forall_app in Hl as [Hrun Hrest].
  destruct (foldl_binaryInsert_descending rest run Hrun Hrest Hd) as [_ ->].
  apply Hst.
Qed.

(** Two sorted lists with the same records of each value, in the same
    order, are the same list. *)
Lemma descending_unique l1 l2 :
  Forall numeric l1 → Forall numeric l2 →
  descending l1 → descending l2 →
  (∀ k, filter (valueIs k) l1 = filter (valueIs k) l2) →
  l1 = l2.
Proof.
  intros Hn1 Hn2 Hs1. revert l2 Hn2.
  induction Hs1 as [|a l1 Hs1 IH Ha]; intros l2 Hn2 Hs2 Heq.
  - destruct l2 as [|b l2]; [done|].
    apply Forall_cons in Hn2 as [[kb Hb] _].
    specialize (Heq kb). rewrite filter_cons_True in Heq by done. done.
  - apply Forall_cons in Hn1 as [[ka Hka] Hn1].
    destruct Hs2 as [|b l2 Hs2 Hb].
    { specialize (Heq ka). rewrite filter_cons_True in Heq by done. done. }
    apply Forall_cons in Hn2 as [[kb Hkb] Hn2].
    assert (ka = kb) as <-.
    { assert (idGe a b) as Hab.
      { destruct (decide (ka = kb)) as [->|Hne].
        - unfold idGe. rewrite Hka, Hkb. lia.
        - assert (b ∈ filter (valueIs kb) (a :: l1)) as Hin.
          { rewrite Heq. rewrite filter_cons_True by done. left. }
          apply list_elem_of_filter in Hin as [_ Hin].
          apply elem_of_cons in Hin as [->|Hin]; [congruence|].
          rewrite Forall_forall in Ha. by apply Ha. }
      assert (idGe b a) as Hba.
      { destruct (decide (ka = kb)) as [->|Hne].
        - unfold idGe. rewrite Hka, Hkb. lia.
        - assert (a ∈ filter (valueIs ka) (b :: l2)) as Hin.
          { rewrite <- Heq. rewrite filter_cons_True by done. left. }
          apply list_elem_of_filter in Hin as [_ Hin].
          apply elem_of_cons in Hin as [->|Hin]; [congruence|].
          rewrite Forall_forall in Hb. by apply Hb. }
      unfold idGe in Hab, Hba. rewrite Hka, Hkb in Hab, Hba. lia. }
    pose proof (Heq ka) as Hk.
    rewrite !filter_cons_True in Hk by done. injection Hk as -> Hk.
    f_equal. apply IH; try done.
    intros k. specialize (Heq k). rewrite !filter_cons in Heq.
    destruct (decide (valueIs k b)); [by injection Heq|done].
Qed.

(** Sorting a list that is in order already returns it. *)
Lemma sortAlerts_id l : descending l → sortAlerts l = l.
Proof.
  intros Hd. destruct l as [|x [|y l]]; [done..|].
  assert (Forall numeric (x :: y :: l)) as Hn
    by (apply descending_numeric; [done|simpl; lia]).
  apply descending_unique; try done.
  - by apply sortAlerts_numeric.
  - by apply sortAlerts_descending.
  - intros k. by apply sortAlerts_stable.
Qed.

Lemma filter_filter_comm {A} (P Q : A → Prop)
    `{!∀ x, Decision (P x)} `{!∀ x, Decision (Q x)} (l : list A) :
  filter P (filter Q l) = filter Q (filter P l).
Proof.
  rewrite !list_filter_filter. apply list_filter_iff. intros x. tauto.
Qed.

(** Filtering before or after the sort gives the same list. *)
Lemma sortAlerts_filter (P : Alert → Prop) `{!∀ x, Decision (P x)} l :
  Forall numeric l → sortAlerts (filter P l) = filter P (sortAlerts l).
Proof.
  intros Hl.
  assert (Forall numeric (filter P l)) as Hf by (by apply Forall_filter_keep).
  apply descending_unique.
  - by apply sortAlerts_numeric.
  - by apply Forall_filter_keep, sortAlerts_numeric.
  - by apply sortAlerts_descending.
  - by apply descending_filter, sortAlerts_descending.
  - intros k. rewrite sortAlerts_stable by done.
    rewrite (filter_filter_comm (valueIs k) P (sortAlerts l)).
    rewrite sortAlerts_stable by done. apply filter_filter_comm.
Qed.

(** Sorting a part first does not change the sort of the whole. *)
Lemma sortAlerts_app_sorted l k :
  Forall numeric l → Forall numeric k →
  sortAlerts (sortAlerts l ++ k) = sortAlerts (l ++ k).
Proof.
  intros Hl Hk.
  assert (Forall numeric (sortAlerts l ++ k)) as H1.
  { apply Forall_app. split; [by apply sortAlerts_numeric|done]. }
  assert (Forall numeric (l ++ k)) as H2 by (by apply Forall_app).
  apply descending_unique.
  - by apply sortAlerts_numeric.
  - by apply sortAlerts_numeric.
  - by apply sortAlerts_descending.
  - by apply sortAlerts_descending.
  - intros v. rewrite !sortAlerts_stable by done.
    rewrite !filter_app. by rewrite sortAlerts_stable.
Qed.

(** ** Printing a number and reading it back *)

Lemma parseDigits_string_of_uint acc d :
  parseDigits 10 (Some acc) (NilEmpty.string_of_uint d) = Some (uintZ acc d).
Proof.
  revert acc. induction d; intros acc; simpl; [done|apply IHd..].
Qed.

Lemma of_uint_acc_uintZ d acc :
  Z.pos (Pos.of_uint_acc d acc) = uintZ (Z.pos acc) d.
Proof.
  revert acc. induction d; intros acc; simpl; [done|rewrite IHd; f_equal; lia..].
Qed.

Lemma of_uint_uintZ d : Z.of_N (Pos.of_uint d) = uintZ 0 d.
Proof.
  induction d; simpl; [done|done|by rewrite of_uint_acc_uintZ..].
Qed.

Lemma trimStart_nonblank c s :
  isWhiteSpace c = false → trimStart (String c s) = String c s.
Proof. simpl. by intros ->. Qed.

Lemma parseDigits_digit radix acc c s d :
  radixDigit radix c = Some d →
  parseDigits radix acc (String c s)
  = parseDigits radix (Some (radix * default 0 acc + d)) s.
Proof. simpl. by intros ->. Qed.

Lemma Int_signs u u' :
  u = u' → Int (1 * u) = Int u' ∧ Int (-1 * u) = Int (- u').
Proof. intros ->. split; f_equal; lia. Qed.

Lemma parseInt_string_of_uint d :
  d ≠ Decimal.Nil →
  parseInt (NilEmpty.string_of_uint d) = Int (uintZ 0 d)
  ∧ parseInt (String "-" (NilEmpty.string_of_uint d)) = Int (- uintZ 0 d).
Proof.
  intros Hd. unfold parseInt.
  destruct d as [|d|d|d|d|d|d|d|d|d|d]; [done|destruct d|..];
    cbn [NilEmpty.string_of_uint];
    rewrite !trimStart_nonblank by reflexivity;
    cbn [stripSign stripPrefix];
    (erewrite !parseDigits_digit by reflexivity);
    rewrite ?parseDigits_string_of_uint;
    cbn [parseDigits default uintZ];
    apply Int_signs; first [reflexivity | f_equal; reflexivity].
Qed.

Lemma parseInt_toString z : parseInt (number_toString (Int z)) = Int z.
Proof.
  destruct z as [|p|p]; [done|..]; simpl.
  - pose proof (Unsigned.to_uint_nonnil p) as Hnil.
    pose proof (Unsigned.of_to p) as Hof.
    destruct (Pos.to_uint p) eqn:E; [done|..];
      (etrans; [apply parseInt_string_of_uint; done|]);
      rewrite <- of_uint_uintZ, Hof; done.
  - pose proof (Unsigned.to_uint_nonnil p) as Hnil.
    pose proof (Unsigned.of_to p) as Hof.
    destruct (Pos.to_uint p) eqn:E; [done|..];
      (etrans; [apply parseInt_string_of_uint; done|]);
      rewrite <- of_uint_uintZ, Hof; done.
Qed.

Lemma canonicalId_inj a b :
  canonicalId a → canonicalId b → parseInt a = parseInt b → a = b.
Proof. intros [_ Ha] [_ Hb] Heq. rewrite Ha, Hb. by rewrite Heq. Qed.

(** ** Math.max over a page *)

Lemma Math_max_numeric (data : list Alert) :
  data ≠ [] → Forall numeric data →
  ∃ m, Math_max ((fun a => parseInt (fileId a)) <$> data) = Int m
       ∧ (∃ a, a ∈ data ∧ parseInt (fileId a) = Int m)
       ∧ ∀ a v, a ∈ data → parseInt (fileId a) = Int v → v ≤ m.
Proof.
  intros Hne Hall. induction Hall as [|x l [vx Hx] Hl IH]; [done|].
  destruct l as [|y l].
  - exists vx. simpl. rewrite Hx. split; [done|]. split.
    + exists x. split; [left|done].
    + intros a v ->%list_elem_of_singleton Hv. rewrite Hx in Hv.
      injection Hv as ->. lia.
  - destruct IH as (m & Hm & (a & Ha & Hav) & Hmax); [done|].
    exists (Z.max vx m). split; [|split].
    + change (number_max (parseInt (fileId x))
                (Math_max ((fun a => parseInt (fileId a)) <$> y :: l))
              = Int (Z.max vx m)).
      by rewrite Hm, Hx.
    + destruct (Z.max_spec vx m) as [[_ ->]|[_ ->]].
      * exists a. split; [by right|done].
      * exists x. split; [left|done].
    + intros b v [->|Hb]%elem_of_cons Hv.
      * rewrite Hx in Hv. injection Hv as ->. lia.
      * specialize (Hmax b v Hb Hv). lia.
Qed.

(** One id that does not parse makes the maximum [NaN]. *)
Lemma Math_max_NaN (data : list Alert) a :
  a ∈ data → parseInt (fileId a) = NaN →
  Math_max ((fun a => parseInt (fileId a)) <$> data) = NaN.
Proof.
  intros Hin Ha. induction data as [|x l IH]; [by apply not_elem_of_nil in Hin|].
  change (number_max (parseInt (fileId x))
            (Math_max ((fun a => parseInt (fileId a)) <$> l)) = NaN).
  apply elem_of_cons in Hin as [<-|Hin].
  - by rewrite Ha.
  - rewrite IH by done. by destruct (parseInt (fileId x)).
Qed.

(** ** The merge and the removal *)

Lemma newAlerts_filter (data prevAlerts : list Alert) :
  filter (fun a => fileId a ∉ (list_to_set (fileId <$> prevAlerts) : gset string)) data
  = filter (fun a => fileId a ∉ fileIds prevAlerts) data.
Proof. apply list_filter_iff. intros a. by rewrite not_elem_of_list_to_set. Qed.

Lemma mergeAlerts_eq data prevAlerts :
  mergeAlerts data prevAlerts
  = sortAlerts
      (prevAlerts ++ filter (fun a => fileId a ∉ fileIds prevAlerts) data).
Proof. unfold mergeAlerts. by rewrite newAlerts_filter. Qed.

Lemma fileIds_filter_sublist (P : Alert → Prop) `{!∀ x, Decision (P x)} l :
  fileIds (filter P l) `sublist_of` fileIds l.
Proof. apply fmap_sublist, sublist_filter. Qed.

Lemma mergeAlerts_uniqueIds data prevAlerts :
  uniqueIds data → uniqueIds prevAlerts →
  uniqueIds (mergeAlerts data prevAlerts).
Proof.
  unfold uniqueIds. intros Hd Hp.
  rewrite mergeAlerts_eq, sortAlerts_fileIds. unfold fileIds.
  rewrite fmap_app. apply NoDup_app. split; [done|]. split.
  - intros id Hid (a & -> & [Ha _]%list_elem_of_filter)%list_elem_of_fmap.
    done.
  - apply (sublist_NoDup _ (fileIds data)); [done|].
    apply (fileIds_filter_sublist _ data).
Qed.

Lemma removeAlert_uniqueIds id prevAlerts :
  uniqueIds prevAlerts → uniqueIds (removeAlert id prevAlerts).
Proof.
  unfold uniqueIds, removeAlert. intros Hp. rewrite sortAlerts_fileIds.
  apply (sublist_NoDup _ (fileIds prevAlerts)); [done|].
  apply (fileIds_filter_sublist _ prevAlerts).
Qed.

Lemma mergeAlerts_Forall (Q : Alert → Prop) data prevAlerts :
  Forall Q data → Forall Q prevAlerts → Forall Q (mergeAlerts data prevAlerts).
Proof.
  intros Hd Hp. rewrite mergeAlerts_eq, sortAlerts_Permutation.
  apply Forall_app. split; [done|]. by apply Forall_filter_keep.
Qed.

Lemma removeAlert_Forall (Q : Alert → Prop) id prevAlerts :
  Forall Q prevAlerts → Forall Q (removeAlert id prevAlerts).
Proof.
  intros Hp. unfold removeAlert. rewrite sortAlerts_Permutation.
  by apply Forall_filter_keep.
Qed.

Lemma mergeAlerts_descending data prevAlerts :
  Forall numeric data → Forall numeric prevAlerts →
  descending (mergeAlerts data prevAlerts).
Proof.
  intros Hd Hp. rewrite mergeAlerts_eq. apply sortAlerts_descending.
  apply Forall_app. split; [done|]. by apply Forall_filter_keep.
Qed.

Lemma removeAlert_descending id prevAlerts :
  Forall numeric prevAlerts → descending (removeAlert id prevAlerts).
Proof.
  intros Hp. apply sortAlerts_descending. by apply Forall_filter_keep.
Qed.

(** On a collection that is in order the removal is the plain filter. *)
Lemma removeAlert_descending_eq id prevAlerts :
  descending prevAlerts →
  removeAlert id prevAlerts = filter (fun a => fileId a ≠ id) prevAlerts.
Proof. intros Hs. apply sortAlerts_id. by apply descending_filter. Qed.

Lemma filter_absent id (l : list Alert) :
  id ∉ fileIds l → filter (fun a => fileId a ≠ id) l = l.
Proof.
  intros Hid. induction l as [|x l IH]; [done|].
  apply not_elem_of_cons in Hid as [Hx Hl].
  rewrite filter_cons_True by done. f_equal. by apply IH.
Qed.

(** Distinct canonical ids have distinct values. *)
Lemma descending_strict l :
  Forall (fun a => canonicalId (fileId a)) l → uniqueIds l →
  descending l → strictlyDescending l.
Proof.
  intros Hc Hu Hs. induction Hs as [|x l Hs IH Hx]; [constructor|].
  apply Forall_cons in Hc as [Hcx Hc].
  apply NoDup_cons in Hu as [Hnx Hu].
  constructor; [by apply IH|].
  apply Forall_forall. intros y Hy.
  rewrite Forall_forall in Hx, Hc.
  specialize (Hx y Hy). specialize (Hc y Hy). simpl in Hc.
  unfold idGe in Hx. unfold idGt.
  destruct (parseInt (fileId x)) as [| |vx|] eqn:Ex; try done.
  destruct (parseInt (fileId y)) as [| |vy|] eqn:Ey; try done.
  destruct (decide (vx = vy)) as [->|]; [|lia].
  exfalso. apply Hnx. rewrite (canonicalId_inj (fileId x) (fileId y)); try done.
  - unfold fileIds. by apply list_elem_of_fmap_2.
  - congruence.
Qed.

(** ** What one event does to the collection *)

Lemma Array_mapM_toAlert data : Array_mapM toAlert (Some <$> data) = Ok data.
Proof.
  induction data as [|a data IH]; [done|].
  cbn [fmap list_fmap Array_mapM]. rewrite IH. by destruct a.
Qed.

Lemma fetchAlerts_data_pageOf data : fetchAlerts_data (pageOf data) = Ok data.
Proof. apply Array_mapM_toAlert. Qed.

Lemma fetchAlerts_alerts s : alerts (fetchAlerts s) = alerts s.
Proof. unfold fetchAlerts. by destruct (loading s), (truthyKey (apiKey s)). Qed.

Lemma handlePasswordSubmit_alerts k s :
  alerts (handlePasswordSubmit k s) = alerts s.
Proof.
  unfold handlePasswordSubmit, mountEffect.
  destruct (showPasswordModal s); [|done].
  destruct (decide _); [done|]. simpl.
  destruct (hasFetched s); [done|].
  destruct k; [done|]. simpl. by rewrite fetchAlerts_alerts.
Qed.

Lemma fetchAlerts_resume_alerts r s :
  alerts (fetchAlerts_resume r s)
  = match fetchAlerts_data r with
    | Ok (a :: data) => mergeAlerts (a :: data) (alerts s)
    | _ => alerts s
    end.
Proof.
  unfold fetchAlerts_resume, Math_max_spread.
  destruct (fetchAlerts_data r) as [[|a data]|e]; [done| |done].
  by destruct (_ <=? _).
Qed.

Lemma resolveAlert_resume_alerts id r s :
  alerts (resolveAlert_resume id r s)
  = match resolveAlert_response r with
    | Ok _ => removeAlert id (alerts s)
    | Throw _ => alerts s
    end.
Proof.
  unfold resolveAlert_resume. by destruct (resolveAlert_response r).
Qed.

(** A property of the collection that the merge of an admissible page and
    the removal preserve holds along every run. *)
Lemma run_alerts_invariant (Q P : list Alert → Prop) es s :
  (∀ data prevAlerts, Q data → P prevAlerts → P (mergeAlerts data prevAlerts)) →
  (∀ id prevAlerts, P prevAlerts → P (removeAlert id prevAlerts)) →
  pagesSatisfy Q es → P (alerts s) → P (alerts (run es s)).
Proof.
  intros Hmerge Hremove Hes. revert s.
  induction Hes as [|e es He Hes IH]; intros s Hs; [done|].
  apply IH. clear IH Hes. destruct e; cbn [step fetchedPage] in *.
  - by rewrite handlePasswordSubmit_alerts.
  - by rewrite fetchAlerts_alerts.
  - rewrite fetchAlerts_resume_alerts.
    destruct (fetchAlerts_data r) as [[|a data]|err]; [done| |done].
    by apply Hmerge.
  - unfold resolveAlert. by destruct (truthyKey (apiKey s)).
  - rewrite resolveAlert_resume_alerts.
    destruct (resolveAlert_response r); [|done]. by apply Hremove.
  - unfold counterTick. by destruct (interval s), (truthyKey (apiKey s)).
  - unfold counterTick_resume. by destruct (counterTick_count r).
Qed.

Lemma pagesSatisfy_impl (Q Q' : list Alert → Prop) es :
  (∀ data, Q data → Q' data) → pagesSatisfy Q es → pagesSatisfy Q' es.
Proof.
  intros HQ Hes. unfold pagesSatisfy in *.
  eapply Forall_impl; [exact Hes|]. intros e. simpl.
  destruct (fetchedPage e); [apply HQ|done].
Qed.

(** With pages of safe integer ids the collection is in order, and all
    its ids parse, after every event. *)
Lemma run_descending es :
  pagesSatisfy (fun data => Forall safeId (fileIds data)) es →
  Forall numeric (alerts (run es initialState))
  ∧ descending (alerts (run es initialState)).
Proof.
  intros Hes.
  apply (run_alerts_invariant (fun data => Forall safeId (fileIds data))
           (fun l => Forall numeric l ∧ descending l)); try done.
  - intros data prev Hd%Forall_safeId_numeric [Hp _]. split.
    + by apply mergeAlerts_Forall.
    + by apply mergeAlerts_descending.
  - intros id prev [Hp _]. split.
    + by apply removeAlert_Forall.
    + by apply removeAlert_descending.
  - split; constructor.
Qed.

Lemma run_uniqueIds es :
  pagesSatisfy uniqueIds es → uniqueIds (alerts (run es initialState)).
Proof.
  intros Hes.
  apply (run_alerts_invariant uniqueIds uniqueIds); try done.
  - apply mergeAlerts_uniqueIds.
  - apply removeAlert_uniqueIds.
  - constructor.
Qed.

(** ** Dedup invariant *)

(** C1 (amended): for every sequence of events starting from the empty
    collection, in which no fetched page repeats a fileId within itself,
    the collection contains each fileId at most once, whatever the overlap
    between a page and the records merged before. *)
Theorem C1_dedup_invariant es :
  pagesSatisfy uniqueIds es → uniqueIds (alerts (run es initialState)).
Proof.
  intros Hes.
  eapply (run_alerts_invariant uniqueIds uniqueIds); [..|exact Hes|].
  - intros data prevAlerts Hdata Hprev.
    by apply mergeAlerts_uniqueIds.
  - intros id prevAlerts Hprev.
    by apply removeAlert_uniqueIds.
  - unfold uniqueIds. simpl. constructor.
Qed.

(** ** Order invariant *)

(** C2 (amended): when every fetched fileId parses as a safe integer, the
    collection is sorted descending by the integer value of fileId after
    every event, so after every successful merge and every successful
    removal; it is strictly descending when moreover every fetched fileId
    is the canonical decimal text of its value and no page repeats one. *)
Theorem C2_order_invariant es :
  pagesSatisfy (fun data => Forall safeId (fileIds data)) es →
  descending (alerts (run es initialState))
  ∧ (pagesSatisfy
       (fun data => uniqueIds data ∧ Forall canonicalId (fileIds data)) es →
     strictlyDescending (alerts (run es initialState))).
Proof.
  intros Hes. destruct (run_descending es Hes) as [_ Hdesc].
  split; [done|]. intros Hcan.
  apply descending_strict; [| |done].
  - apply (run_alerts_invariant
             (fun data => uniqueIds data ∧ Forall canonicalId (fileIds data))
             (fun l => Forall (fun a => canonicalId (fileId a)) l)); try done.
    + intros data prev [_ Hd] Hp. apply mergeAlerts_Forall; [|done].
      unfold fileIds in Hd. by rewrite Forall_fmap in Hd.
    + intros id prev. apply removeAlert_Forall.
  - apply run_uniqueIds.
    eapply pagesSatisfy_impl; [|exact Hcan]. by intros data [? _].
Qed.

(** ** Cursor *)

Lemma Math_max_spread_Ok (xs : list number) :
  Z.of_nat (length xs) ≤ maxArguments → Math_max_spread xs = Ok (Math_max xs).
Proof.
  intros Hlen. unfold Math_max_spread.
  by destruct (Z.leb_spec (Z.of_nat (length xs)) maxArguments); [|lia].
Qed.

Lemma Math_max_spread_Throw (xs : list number) :
  maxArguments < Z.of_nat (length xs) →
  Math_max_spread xs = Throw "RangeError: Maximum call stack size exceeded".
Proof.
  intros Hlen. unfold Math_max_spread.
  by destruct (Z.leb_spec (Z.of_nat (length xs)) maxArguments); [lia|].
Qed.

(** The completion on a page that is spread without an error. *)
Lemma fetchAlerts_resume_page r s a data :
  fetchAlerts_data r = Ok (a :: data) →
  Z.of_nat (length (a :: data)) ≤ maxArguments →
  fetchAlerts_resume r s
  = setLoading false
      (setLastCutoffId
         (number_toString
            (Math_max ((fun a => parseInt (fileId a)) <$> a :: data)))
         (setAlerts (mergeAlerts (a :: data)) s)).
Proof.
  intros Hr Hlen. unfold fetchAlerts_resume. rewrite Hr.
  rewrite Math_max_spread_Ok; [done|]. by rewrite length_fmap.
Qed.

(** The completion on a page that is too long to be spread: the merge is
    made, the [catch] block runs on its result. *)
Lemma fetchAlerts_resume_overflow r s a data :
  fetchAlerts_data r = Ok (a :: data) →
  maxArguments < Z.of_nat (length (a :: data)) →
  fetchAlerts_resume r s
  = setLoading false
      (fetchAlerts_catch "RangeError: Maximum call stack size exceeded"
         (setAlerts (mergeAlerts (a :: data)) s)).
Proof.
  intros Hr Hlen. unfold fetchAlerts_resume. rewrite Hr.
  rewrite Math_max_spread_Throw; [done|]. by rewrite length_fmap.
Qed.

(** The four ways a completion ends. *)
Lemma fetchAlerts_resume_cases r s :
  (fetchAlerts_data r = Ok [] ∧ fetchAlerts_resume r s = setLoading false s)
  ∨ (∃ a data,
       fetchAlerts_data r = Ok (a :: data)
       ∧ Z.of_nat (length (a :: data)) ≤ maxArguments
       ∧ fetchAlerts_resume r s
         = setLoading false
             (setLastCutoffId
                (number_toString
                   (Math_max ((fun a => parseInt (fileId a)) <$> a :: data)))
                (setAlerts (mergeAlerts (a :: data)) s)))
  ∨ (∃ a data,
       fetchAlerts_data r = Ok (a :: data)
       ∧ maxArguments < Z.of_nat (length (a :: data))
       ∧ fetchAlerts_resume r s
         = setLoading false
             (fetchAlerts_catch "RangeError: Maximum call stack size exceeded"
                (setAlerts (mergeAlerts (a :: data)) s)))
  ∨ (∃ e, fetchAlerts_data r = Throw e
          ∧ fetchAlerts_resume r s = setLoading false (fetchAlerts_catch e s)).
Proof.
  destruct (fetchAlerts_data r) as [[|a data]|e] eqn:Hr.
  - left. split; [done|]. unfold fetchAlerts_resume. by rewrite Hr.
  - destruct (Z.le_gt_cases (Z.of_nat (length (a :: data))) maxArguments).
    + right. left. exists a, data. repeat split; [done|].
      by apply fetchAlerts_resume_page.
    + right. right. left. exists a, data. repeat split; [done|].
      by apply fetchAlerts_resume_overflow.
  - right. right. right. exists e. split; [done|].
    unfold fetchAlerts_resume. by rewrite Hr.
Qed.

Lemma fetchAlerts_resume_empty r s :
  fetchAlerts_data r = Ok [] → fetchAlerts_resume r s = setLoading false s.
Proof. unfold fetchAlerts_resume. by intros ->. Qed.

Lemma fetchAlerts_resume_throw r s e :
  fetchAlerts_data r = Throw e →
  fetchAlerts_resume r s
  = setLoading false
      (console_error ("Fetch error: " +:+ e)
         (setError (Some "Failed to fetch alerts. Please try again later.") s)).
Proof. unfold fetchAlerts_resume, fetchAlerts_catch. by intros ->. Qed.

(** The cutoff after a completion is the one before, unless the page was
    not empty and was spread without an error. *)
Lemma fetchAlerts_resume_lastCutoffId r s :
  lastCutoffId (fetchAlerts_resume r s) = lastCutoffId s
  ∨ ∃ a data, fetchAlerts_data r = Ok (a :: data)
              ∧ Z.of_nat (length (a :: data)) ≤ maxArguments.
Proof.
  destruct (fetchAlerts_resume_cases r s)
    as [[_ ->]|[(a & data & Hr & Hlen & _)|[(a & data & _ & _ & ->)|(e & _ & ->)]]];
    [by left|right; by exists a, data|by left..].
Qed.

Lemma fetchAlerts_lastCutoffId s : lastCutoffId (fetchAlerts s) = lastCutoffId s.
Proof. unfold fetchAlerts. by destruct (loading s), (truthyKey (apiKey s)). Qed.

(** Only a delivered, non-empty page moves the cutoff. *)
Lemma step_lastCutoffId s e :
  lastCutoffId (step s e) ≠ lastCutoffId s →
  ∃ page, fetchedPage e = Some page ∧ page ≠ [].
Proof.
  destruct e; cbn [step fetchedPage]; intros Hne.
  - exfalso. apply Hne. unfold handlePasswordSubmit, mountEffect.
    destruct (showPasswordModal s); [|done].
    destruct (decide _); [done|]. simpl.
    destruct (hasFetched s); [done|].
    destruct inputPassword; [done|]. simpl. by rewrite fetchAlerts_lastCutoffId.
  - exfalso. apply Hne, fetchAlerts_lastCutoffId.
  - destruct (fetchAlerts_resume_lastCutoffId r s)
      as [Heq|(a & data & -> & _)]; [done|].
    by exists (a :: data).
  - exfalso. apply Hne. unfold resolveAlert.
    by destruct (truthyKey (apiKey s)).
  - exfalso. apply Hne. unfold resolveAlert_resume.
    by destruct (resolveAlert_response r).
  - exfalso. apply Hne. unfold counterTick.
    by destruct (interval s), (truthyKey (apiKey s)).
  - exfalso. apply Hne. unfold counterTick_resume.
    by destruct (counterTick_count r).
Qed.

(** C3 (amended): for every successful fetchAlerts call whose page is not
    empty, holds only fileIds that parse as safe integers and has no more
    records than the engine takes as the arguments of one call, the new
    cutoff is the decimal text of the maximum integer id over the fetched
    page, taken before the dedup filter; when every id of the page is
    greater than the prior cutoff, the new cutoff is at least the prior
    one; and no event other than the completion of a fetch with a
    non-empty page changes the cutoff. *)
Theorem C3_cursor_update r s data :
  fetchAlerts_data r = Ok data → data ≠ [] →
  Forall safeId (fileIds data) →
  Z.of_nat (length data) ≤ maxArguments →
  let s' := fetchAlerts_resume r s in
  cutoffIsPageMax data s'
  ∧ (∀ c, parseInt (lastCutoffId s) = Int c →
          Forall (idAbove c) data →
          ∃ m, parseInt (lastCutoffId s') = Int m ∧ c ≤ m)
  ∧ (∀ e s0, lastCutoffId (step s0 e) ≠ lastCutoffId s0 →
             ∃ page, fetchedPage e = Some page ∧ page ≠ []).
Proof.
  intros Hr Hne Hsafe Hlen s'.
  assert (cutoffIsPageMax data s') as Hmax.
  { destruct (Math_max_numeric data Hne (Forall_safeId_numeric _ Hsafe))
      as (m & Hm & Hin & Hle).
    exists m. subst s'. destruct data as [|a data]; [done|].
    rewrite (fetchAlerts_resume_page _ _ _ _ Hr Hlen).
    cbn [lastCutoffId setLoading setLastCutoffId].
    rewrite Hm, parseInt_toString. done. }
  split; [done|]. split; [|intros e s0; apply step_lastCutoffId].
  intros c Hc Hgt. destruct Hmax as (m & Hm & _ & (a & Ha & Hav) & _).
  exists m. split; [done|].
  rewrite Forall_forall in Hgt. specialize (Hgt a Ha).
  unfold idAbove in Hgt. rewrite Hav in Hgt. lia.
Qed.

(** ** Single-flight guard *)

Lemma fetchAlerts_resume_network r s :
  network (fetchAlerts_resume r s) = network s.
Proof.
  by destruct (fetchAlerts_resume_cases r s)
    as [[_ ->]|[(a & data & _ & _ & ->)|[(a & data & _ & _ & ->)|(e & _ & ->)]]].
Qed.

(** C4: while a fetch is pending ([loading] is true) a further call of
    fetchAlerts (the Load More trigger) returns at its guard: no request is
    issued and the state is the same, so the pending fetch completes exactly
    as it would have, and its completion issues no request either (the
    dropped trigger is not replayed). *)
Theorem C4_single_flight s :
  loading s = true →
  fetchAlerts s = s
  ∧ network (fetchAlerts s) = network s
  ∧ step s LoadMore = s
  ∧ ∀ r, fetchAlerts_resume r (fetchAlerts s) = fetchAlerts_resume r s
         ∧ network (fetchAlerts_resume r (fetchAlerts s)) = network s.
Proof.
  intros Hl.
  assert (fetchAlerts s = s) as Heq by (unfold fetchAlerts; by rewrite Hl).
  cbn [step]. rewrite Heq. repeat split; try done.
  apply fetchAlerts_resume_network.
Qed.

(** ** Failure atomicity *)

Lemma Array_mapM_toAlert_null items :
  None ∈ items → ∃ e, Array_mapM toAlert items = Throw e.
Proof.
  induction items as [|item items IH]; intros Hin.
  - by apply not_elem_of_nil in Hin.
  - destruct item as [a|]; [|by eexists].
    apply elem_of_cons in Hin as [|Hin]; [done|].
    destruct (IH Hin) as [e He]. exists e. cbn [Array_mapM toAlert].
    by rewrite He.
Qed.

(** C5, the failing call: a 2xx response whose data array has more
    entries than the engine takes as the arguments of one call.  The call
    fails, with the error published, the guard released and the cutoff as
    it was, but after the page was merged: the collection holds the stored
    records and every record of the page whose fileId was not stored. *)
Theorem C5_partial_merge_above_limit r data s :
  fetchAlerts_data r = Ok data →
  maxArguments < Z.of_nat (length data) → 0 < Z.of_nat (length data) →
  let s' := fetchAlerts_resume r s in
  error s' = Some "Failed to fetch alerts. Please try again later."
  ∧ loading s' = false
  ∧ lastCutoffId s' = lastCutoffId s
  ∧ alerts s'
    ≡ₚ alerts s ++ filter (fun a => fileId a ∉ fileIds (alerts s)) data
  ∧ ∀ a, a ∈ data → fileId a ∉ fileIds (alerts s) →
         a ∈ alerts s' ∧ a ∉ alerts s.
Proof.
  intros Hr Hlen Hpos s'. destruct data as [|b data]; [simpl in Hpos; lia|].
  subst s'. rewrite (fetchAlerts_resume_overflow _ _ _ _ Hr Hlen).
  cbn [alerts error loading lastCutoffId
       setLoading fetchAlerts_catch console_error setError setAlerts].
  do 3 (split; [done|]).
  assert (mergeAlerts (b :: data) (alerts s)
          ≡ₚ alerts s
             ++ filter (fun a => fileId a ∉ fileIds (alerts s)) (b :: data))
    as Hperm by (by rewrite mergeAlerts_eq, sortAlerts_Permutation).
  split; [done|]. intros a Ha Hid. split.
  - rewrite Hperm. apply elem_of_app. right. by apply list_elem_of_filter.
  - intros Hin. apply Hid. unfold fileIds. by apply list_elem_of_fmap_2.
Qed.

(** X22: a fetchAlerts call that fails before the merge (the request is
    rejected, the response is not 2xx, or reading the body throws) leaves
    the collection and the cutoff as they were, publishes an error, issues
    no further request and releases the guard; the guard is released after
    every completion, failed or not.  A resolveAlert call that fails
    leaves the collection as it was, publishes an error and issues no
    further request. *)
Theorem X22_failure_before_merge r e id r' e' s :
  fetchAlerts_data r = Throw e →
  resolveAlert_response r' = Throw e' →
  (let s' := fetchAlerts_resume r s in
   alerts s' = alerts s ∧ lastCutoffId s' = lastCutoffId s
   ∧ error s' = Some "Failed to fetch alerts. Please try again later."
   ∧ loading s' = false ∧ network s' = network s)
  ∧ (∀ r0 s0, loading (fetchAlerts_resume r0 s0) = false)
  ∧ (let s' := resolveAlert_resume id r' s in
     alerts s' = alerts s ∧ lastCutoffId s' = lastCutoffId s
     ∧ error s' = Some "Failed to resolve alert. Please try again."
     ∧ loading s' = loading s ∧ network s' = network s)
  ∧ (∀ reason, fetchAlerts_data (Rejected reason) = Throw reason)
  ∧ (∀ body, ∃ e0, fetchAlerts_data (Responded false body) = Throw e0)
  ∧ (∃ e0, fetchAlerts_data (Responded true FileDataNotJson) = Throw e0)
  ∧ (∃ e0, fetchAlerts_data (Responded true FileDataNoArray) = Throw e0)
  ∧ (∀ items, None ∈ items →
              ∃ e0, fetchAlerts_data (Responded true (FileData items)) = Throw e0)
  ∧ (∀ reason, resolveAlert_response (Rejected reason) = Throw reason)
  ∧ (∀ body, ∃ e0, resolveAlert_response (Responded false body) = Throw e0).
Proof.
  intros Hr Hr'. split; [|split; [|split]].
  - by rewrite (fetchAlerts_resume_throw _ _ _ Hr).
  - intros r0 s0. unfold fetchAlerts_resume.
    destruct (fetchAlerts_data r0) as [[|a data]|err]; [done| |done].
    by destruct (Math_max_spread _).
  - unfold resolveAlert_resume. by rewrite Hr'.
  - repeat split; try done; intros; try by eexists.
    by apply Array_mapM_toAlert_null.
Qed.

(** ** Resolve *)

Lemma setAlerts_same f s : f (alerts s) = alerts s → setAlerts f s = s.
Proof. destruct s. unfold setAlerts. simpl. by intros ->. Qed.

Lemma fileIds_filter_absent id (l : list Alert) :
  id ∉ fileIds (filter (fun a => fileId a ≠ id) l).
Proof.
  unfold fileIds.
  by intros (a & -> & [Hne _]%list_elem_of_filter)%list_elem_of_fmap.
Qed.

(** C6 (amended): in every state the component reaches from its initial
    state while the fetched fileIds parse as safe integers, a
    resolveAlert(id) whose request succeeds leaves the prior collection
    without the alerts whose fileId is id, in the same order; it throws
    nothing and leaves the published error alone; when no alert has that
    fileId the whole state is unchanged, so resolving the same id once more
    changes nothing. *)
Theorem C6_resolve_postcondition es id body :
  pagesSatisfy (fun data => Forall safeId (fileIds data)) es →
  let s := run es initialState in
  let s' := resolveAlert_resume id (Responded true body) s in
  alerts s' = filter (fun a => fileId a ≠ id) (alerts s)
  ∧ resolveAlert_response (Responded true body) = Ok tt
  ∧ error s' = error s
  ∧ (id ∉ fileIds (alerts s) → s' = s)
  ∧ resolveAlert_resume id (Responded true body) s' = s'.
Proof.
  intros Hes s s'. destruct (run_descending es Hes) as [_ Hdesc].
  fold s in Hdesc.
  assert (alerts s' = filter (fun a => fileId a ≠ id) (alerts s)) as Heq.
  { subst s'. rewrite resolveAlert_resume_alerts. simpl.
    by apply removeAlert_descending_eq. }
  repeat split; try done.
  - intros Hid. subst s'. unfold resolveAlert_resume. simpl.
    apply setAlerts_same. rewrite removeAlert_descending_eq by done.
    by apply filter_absent.
  - unfold resolveAlert_resume at 1. simpl. apply setAlerts_same.
    rewrite Heq.
    rewrite removeAlert_descending_eq by (by apply descending_filter).
    apply filter_absent, fileIds_filter_absent.
Qed.

(** ** Merge and resolve commute *)

Lemma filter_ext_elem {A} (P Q : A → Prop)
    `{!∀ x, Decision (P x)} `{!∀ x, Decision (Q x)} (l : list A) :
  (∀ x, x ∈ l → P x ↔ Q x) → filter P l = filter Q l.
Proof.
  induction l as [|x l IH]; intros Hpq; [done|].
  rewrite !filter_cons.
  assert (P x ↔ Q x) as Hx by (apply Hpq; left).
  rewrite IH by (intros y Hy; apply Hpq; by right).
  destruct (decide (P x)), (decide (Q x)); tauto.
Qed.

Lemma removeAlert_fileIds id prevAlerts x :
  x ∈ fileIds (removeAlert id prevAlerts) ↔ x ∈ fileIds prevAlerts ∧ x ≠ id.
Proof.
  unfold removeAlert. rewrite sortAlerts_fileIds. unfold fileIds.
  rewrite !list_elem_of_fmap. split.
  - intros (a & -> & [Hne Ha]%list_elem_of_filter). split; [|done].
    by exists a.
  - intros [(a & -> & Ha) Hne]. exists a. split; [done|].
    by apply list_elem_of_filter.
Qed.

Lemma removeAlert_mergeAlerts id data prevAlerts :
  Forall numeric prevAlerts → Forall numeric data → id ∉ fileIds data →
  removeAlert id (mergeAlerts data prevAlerts)
  = mergeAlerts data (removeAlert id prevAlerts).
Proof.
  intros Hp Hd Hid.
  set (new := filter (fun a => fileId a ∉ fileIds prevAlerts) data).
  assert (Forall numeric new) as Hnew by (by apply Forall_filter_keep).
  assert (filter (fun a => fileId a ≠ id) new = new) as Hkeep.
  { apply filter_absent. intros Hin. apply Hid.
    apply (elem_of_sublist _ _ _ Hin).
    apply (fileIds_filter_sublist _ data). }
  assert (filter (fun a => fileId a ∉ fileIds (removeAlert id prevAlerts)) data
          = new) as Hsame.
  { apply filter_ext_elem. intros a Ha. rewrite removeAlert_fileIds.
    assert (fileId a ≠ id) as Hne.
    { intros <-. apply Hid. unfold fileIds. by apply list_elem_of_fmap_2. }
    tauto. }
  rewrite (mergeAlerts_eq data (removeAlert id prevAlerts)), Hsame.
  rewrite mergeAlerts_eq. fold new. unfold removeAlert.
  rewrite <- (sortAlerts_filter _ (prevAlerts ++ new))
    by (by apply Forall_app).
  rewrite (sortAlerts_id (sortAlerts _)).
  2:{ apply sortAlerts_descending, Forall_filter_keep. by apply Forall_app. }
  rewrite filter_app, Hkeep.
  symmetry. apply sortAlerts_app_sorted; [|done].
  by apply Forall_filter_keep.
Qed.

(** C7 (amended): for every collection and every fetched page whose
    fileIds parse as safe integers, and every resolved id that is not a
    fileId of the page, completing the fetch and then the resolve gives the
    same state, so the same collection, as completing the resolve and then
    the fetch. *)
Theorem C7_merge_resolve_commute r data id body s :
  fetchAlerts_data r = Ok data →
  Forall safeId (fileIds (alerts s)) →
  Forall safeId (fileIds data) →
  id ∉ fileIds data →
  resolveAlert_resume id (Responded true body) (fetchAlerts_resume r s)
  = fetchAlerts_resume r (resolveAlert_resume id (Responded true body) s).
Proof.
  intros Hr Hs%Forall_safeId_numeric Hd%Forall_safeId_numeric Hid.
  destruct data as [|a data].
  - by rewrite !(fetchAlerts_resume_empty _ _ Hr).
  - destruct (Z.le_gt_cases (Z.of_nat (length (a :: data))) maxArguments)
      as [Hlen|Hlen].
    + rewrite !(fetchAlerts_resume_page _ _ _ _ Hr Hlen).
      unfold resolveAlert_resume. simpl.
      unfold setLoading, setLastCutoffId, setAlerts. simpl.
      by rewrite removeAlert_mergeAlerts.
    + rewrite !(fetchAlerts_resume_overflow _ _ _ _ Hr Hlen).
      unfold resolveAlert_resume, fetchAlerts_catch. simpl.
      unfold setLoading, console_error, setError, setAlerts. simpl.
      by rewrite removeAlert_mergeAlerts.
Qed.

(** ** Malformed payloads *)

(** C8 (amended): a 2xx response whose body is not JSON, has no data array
    or holds a null entry fails like a transport error: collection and
    cutoff unchanged, guard released, error published. *)
Theorem C8_malformed_payload body s :
  malformedBody body →
  let s' := fetchAlerts_resume (Responded true body) s in
  fetchAborted s s'
  ∧ error s' = Some "Failed to fetch alerts. Please try again later.".
Proof.
  intros Hbad.
  assert (∃ e, fetchAlerts_data (Responded true body) = Throw e) as [e He].
  { destruct body as [| |items]; [by eexists..|].
    by apply Array_mapM_toAlert_null. }
  rewrite (fetchAlerts_resume_throw _ _ _ He). by repeat split.
Qed.

(** X23: a fileId that does not parse as a number is no failure.  For a
    page of objects that holds one and has no more records than the engine
    takes as call arguments, the fetch completes without publishing an
    error, the records of the page whose fileId was not stored join the
    collection, the guard is released and the cutoff becomes the text
    [NaN]. *)
Theorem X23_unparsable_id_page data a s :
  a ∈ data → parseInt (fileId a) = NaN →
  Z.of_nat (length data) ≤ maxArguments →
  let s' := fetchAlerts_resume (pageOf data) s in
  alerts s' ≡ₚ alerts s ++ filter (fun b => fileId b ∉ fileIds (alerts s)) data
  ∧ lastCutoffId s' = "NaN"
  ∧ error s' = error s
  ∧ loading s' = false.
Proof.
  intros Ha Hnan Hlen.
  pose proof (fetchAlerts_data_pageOf data) as Hr.
  destruct data as [|b data]; [by apply not_elem_of_nil in Ha|].
  rewrite (fetchAlerts_resume_page _ _ _ _ Hr Hlen).
  cbn [alerts lastCutoffId error loading setLoading setLastCutoffId setAlerts].
  rewrite (Math_max_NaN _ a Ha Hnan).
  by rewrite mergeAlerts_eq, sortAlerts_Permutation.
Qed.

(** ** Counter poll *)

Lemma Array_filterM_no_match (rows : list CounterRow) :
  Forall (fun row => rowKey row ≠ "unique_counter") rows →
  Array_filterM isUniqueCounter (Some <$> rows) = Ok [].
Proof.
  induction 1 as [|row rows Hrow Hrows IH]; [done|].
  cbn [fmap list_fmap Array_filterM isUniqueCounter]. rewrite IH.
  cbn [mbind result_bind mret result_ret]. by rewrite bool_decide_eq_false_2.
Qed.

(** C9: a counter tick that fails (rejected request, non-2xx response,
    body that cannot be read, no row with rowKey unique_counter) only
    writes a console line: the published counter, the published error and
    the armed timer are as before; the next tick still issues its request,
    and a later tick that succeeds publishes its count.  The timer is armed
    with a period of 2000 ms and cleared by the cleanup of the effect. *)
Theorem C9_counter_poll_isolation r e s :
  counterTick_count r = Throw e →
  let s' := counterTick_resume r s in
  s' = console_error ("Error fetching counter: " +:+ e) s
  ∧ counter s' = counter s
  ∧ error s' = error s
  ∧ interval s' = interval s
  ∧ (∀ key, interval s = Some counterPeriod → truthyKey (apiKey s) = Some key →
            network (step s' Tick)
            = (network s ++ [{| method := "GET"; url := counterUrl;
                                xApiKey := key |}])%list)
  ∧ (∀ r2 n, counterTick_count r2 = Ok n →
             counter (counterTick_resume r2 s') = n)
  ∧ (∀ reason, counterTick_count (Rejected reason) = Throw reason)
  ∧ (∀ body, ∃ e0, counterTick_count (Responded false body) = Throw e0)
  ∧ (∀ rows, Forall (fun row => rowKey row ≠ "unique_counter") rows →
             ∃ e0, counterTick_count (Responded true (CounterData (Some <$> rows)))
                   = Throw e0)
  ∧ interval initialState = Some 2000
  ∧ (∀ s0, interval (counterEffect s0) = Some 2000
           ∧ interval (counterEffect_cleanup s0) = None
           ∧ step (counterEffect_cleanup s0) Tick = counterEffect_cleanup s0).
Proof.
  intros Hr s'.
  assert (s' = console_error ("Error fetching counter: " +:+ e) s) as Hs'.
  { subst s'. unfold counterTick_resume. by rewrite Hr. }
  rewrite Hs'. repeat split; try done.
  - intros key Hi Hk. cbn [step interval console_error]. rewrite Hi.
    unfold counterTick. cbn [apiKey console_error]. by rewrite Hk.
  - intros r2 n Hr2. unfold counterTick_resume. by rewrite Hr2.
  - intros body. by eexists.
  - intros rows Hrows. eexists. cbn [counterTick_count].
    by rewrite Array_filterM_no_match.
Qed.

(** ** A new fetch clears the published error *)

(** C10: a fetchAlerts call that passes its guard (a key is present, no
    fetch is pending) sets the published error to null before it issues
    the request, whatever error a fetch or a resolve had published; the
    error stays null when the fetch then returns an empty page, and is
    replaced by the fetch error when it fails.  A successful resolveAlert
    leaves the published error as it is. *)
Theorem C10_fetch_clears_error s key :
  loading s = false → truthyKey (apiKey s) = Some key →
  let req := {| method := "GET"; url := fileDataUrl (lastCutoffId s);
                xApiKey := key |} in
  fetchAlerts s = fetch req (setError None (setLoading true s))
  ∧ error (fetchAlerts s) = None
  ∧ network (fetchAlerts s) = (network s ++ [req])%list
  ∧ (∀ r, fetchAlerts_data r = Ok [] →
          error (fetchAlerts_resume r (fetchAlerts s)) = None)
  ∧ (∀ r e, fetchAlerts_data r = Throw e →
            error (fetchAlerts_resume r (fetchAlerts s))
            = Some "Failed to fetch alerts. Please try again later.")
  ∧ (∀ id body s0,
       error (resolveAlert_resume id (Responded true body) s0) = error s0).
Proof.
  intros Hl Hk req.
  assert (fetchAlerts s = fetch req (setError None (setLoading true s))) as ->.
  { unfold fetchAlerts. by rewrite Hl, Hk. }
  repeat split; try done.
  - intros r Hr. by rewrite (fetchAlerts_resume_empty _ _ Hr).
  - intros r e Hr. by rewrite (fetchAlerts_resume_throw _ _ _ Hr).
Qed.

(** * Further properties of the component *)

(** ** sortAlerts *)

(** X1: on records whose fileIds parse as safe integers, sortAlerts returns
    the same records, in descending order of the integer value of fileId,
    and sorting its result again changes nothing. *)
Theorem X1_sortAlerts_sorts l :
  Forall safeId (fileIds l) →
  sortAlerts l ≡ₚ l
  ∧ descending (sortAlerts l)
  ∧ sortAlerts (sortAlerts l) = sortAlerts l.
Proof.
  intros Hl%Forall_safeId_numeric.
  assert (descending (sortAlerts l)) as Hd by (by apply sortAlerts_descending).
  split; [apply sortAlerts_Permutation|]. split; [done|].
  by apply sortAlerts_id.
Qed.

(** X2: sortAlerts is stable: among records whose fileIds parse as safe
    integers, those with the same integer value keep the order they had. *)
Theorem X2_sortAlerts_stable l k :
  Forall safeId (fileIds l) →
  filter (valueIs k) (sortAlerts l) = filter (valueIs k) l.
Proof.
  intros Hl%Forall_safeId_numeric.
  rewrite <- sortAlerts_filter by done.
  apply sortAlerts_id, (valueIs_descending k).
  apply Forall_forall. by intros a [Ha _]%list_elem_of_filter.
Qed.

(** ** The merge *)

Lemma elem_of_mergeAlerts data prevAlerts x :
  x ∈ mergeAlerts data prevAlerts
  ↔ x ∈ prevAlerts ∨ (x ∈ data ∧ fileId x ∉ fileIds prevAlerts).
Proof.
  rewrite mergeAlerts_eq, sortAlerts_Permutation, elem_of_app.
  rewrite list_elem_of_filter. tauto.
Qed.

Lemma elem_of_removeAlert id prevAlerts x :
  x ∈ removeAlert id prevAlerts ↔ x ∈ prevAlerts ∧ fileId x ≠ id.
Proof.
  unfold removeAlert. rewrite sortAlerts_Permutation, list_elem_of_filter.
  tauto.
Qed.

(** X3: whatever the fileIds are, the merge keeps every stored record and
    takes from the page exactly the records whose fileId is not stored yet:
    the new collection is the stored records followed by those page
    records, rearranged. *)
Theorem X3_mergeAlerts_records data prevAlerts :
  mergeAlerts data prevAlerts
    ≡ₚ prevAlerts ++ filter (fun a => fileId a ∉ fileIds prevAlerts) data
  ∧ (∀ x, x ∈ mergeAlerts data prevAlerts
          ↔ x ∈ prevAlerts ∨ (x ∈ data ∧ fileId x ∉ fileIds prevAlerts))
  ∧ (length prevAlerts ≤ length (mergeAlerts data prevAlerts)
                       ≤ length prevAlerts + length data)%nat.
Proof.
  assert (mergeAlerts data prevAlerts
            ≡ₚ prevAlerts ++ filter (fun a => fileId a ∉ fileIds prevAlerts) data)
    as Hperm by (by rewrite mergeAlerts_eq, sortAlerts_Permutation).
  split; [done|]. split; [intros x; apply elem_of_mergeAlerts|].
  rewrite Hperm, length_app.
  pose proof (length_filter (fun a => fileId a ∉ fileIds prevAlerts) data).
  lia.
Qed.

(** X4: a stored record is never replaced: when the stored fileIds are
    unique, every record of the merged collection that has the fileId of a
    stored record is that stored record, whatever the page says about it. *)
Theorem X4_mergeAlerts_stored_record_wins data prevAlerts a x :
  uniqueIds prevAlerts → a ∈ prevAlerts →
  x ∈ mergeAlerts data prevAlerts → fileId x = fileId a → x = a.
Proof.
  intros Hu Ha Hx Heq.
  apply elem_of_mergeAlerts in Hx as [Hx|[_ Hx]].
  - apply (NoDup_fmap_1 fileId) in Hu as Hnd.
    apply list_elem_of_lookup in Ha as [i Hi].
    apply list_elem_of_lookup in Hx as [j Hj].
    assert (i = j) as ->; [|congruence].
    eapply (NoDup_lookup (fileIds prevAlerts)); [exact Hu|..].
    + unfold fileIds. by rewrite list_lookup_fmap, Hi.
    + unfold fileIds. rewrite list_lookup_fmap, Hj. simpl. by rewrite Heq.
  - exfalso. apply Hx. rewrite Heq. unfold fileIds.
    by apply list_elem_of_fmap_2.
Qed.

Lemma mergeAlerts_again data prevAlerts :
  Forall numeric data → Forall numeric prevAlerts →
  mergeAlerts data (mergeAlerts data prevAlerts) = mergeAlerts data prevAlerts.
Proof.
  intros Hd Hp.
  assert (filter (fun a => fileId a ∉ fileIds (mergeAlerts data prevAlerts)) data
          = []) as Hnone.
  { apply filter_none, Forall_forall. intros a Ha Hnot. apply Hnot.
    destruct (decide (fileId a ∈ fileIds prevAlerts)) as [Hin|Hout].
    - unfold fileIds in *. apply list_elem_of_fmap in Hin as (b & Hb & Hin).
      rewrite Hb. apply list_elem_of_fmap_2, elem_of_mergeAlerts. by left.
    - unfold fileIds. apply list_elem_of_fmap_2, elem_of_mergeAlerts.
      by right. }
  rewrite (mergeAlerts_eq data (mergeAlerts data prevAlerts)), Hnone.
  rewrite app_nil_r. apply sortAlerts_id. by apply mergeAlerts_descending.
Qed.

(** X5: delivering the same successful page a second time changes nothing:
    when the stored and the fetched fileIds parse as safe integers and the
    page has no more records than the engine takes as the arguments of one
    call, the completion of fetchAlerts applied twice with one response
    gives the state it gives applied once. *)
Theorem X5_fetch_same_page_twice r data s :
  fetchAlerts_data r = Ok data →
  Forall safeId (fileIds (alerts s)) →
  Forall safeId (fileIds data) →
  Z.of_nat (length data) ≤ maxArguments →
  fetchAlerts_resume r (fetchAlerts_resume r s) = fetchAlerts_resume r s.
Proof.
  intros Hr Hs%Forall_safeId_numeric Hd%Forall_safeId_numeric Hlen.
  destruct data as [|a data].
  - by rewrite !(fetchAlerts_resume_empty _ _ Hr).
  - rewrite !(fetchAlerts_resume_page _ _ _ _ Hr Hlen).
    unfold setLoading, setLastCutoffId, setAlerts. simpl.
    by rewrite mergeAlerts_again.
Qed.

(** ** The removal *)

(** X6: whatever the fileIds are and whatever state the component is in, a
    resolveAlert(id) whose request succeeds removes every record with that
    fileId, also when it is stored more than once, and no other record. *)
Theorem X6_resolve_removes_exactly id body s :
  let s' := resolveAlert_resume id (Responded true body) s in
  alerts s' ≡ₚ filter (fun a => fileId a ≠ id) (alerts s)
  ∧ (id ∉ fileIds (alerts s'))
  ∧ ∀ x, x ∈ alerts s' ↔ x ∈ alerts s ∧ fileId x ≠ id.
Proof.
  intros s'. subst s'. rewrite resolveAlert_resume_alerts. simpl.
  split; [apply sortAlerts_Permutation|]. split.
  - rewrite removeAlert_fileIds. tauto.
  - intros x. apply elem_of_removeAlert.
Qed.

(** X7: a resolved alert comes back when a page that still lists it is
    merged afterwards: after a successful resolveAlert(id), the completion
    of a fetch whose page holds a record with that fileId stores it
    again. *)
Theorem X7_resolved_alert_reappears r data id body s :
  fetchAlerts_data r = Ok data → id ∈ fileIds data →
  id ∈ fileIds
         (alerts (fetchAlerts_resume r
                    (resolveAlert_resume id (Responded true body) s))).
Proof.
  intros Hr Hid. unfold fileIds in Hid.
  apply list_elem_of_fmap in Hid as (a & -> & Ha).
  destruct data as [|b data]; [by apply not_elem_of_nil in Ha|].
  rewrite fetchAlerts_resume_alerts, Hr, resolveAlert_resume_alerts. simpl.
  unfold fileIds. apply list_elem_of_fmap_2, elem_of_mergeAlerts. right.
  split; [done|]. rewrite removeAlert_fileIds. tauto.
Qed.

Lemma removeAlert_removeAlert a b l :
  Forall numeric l →
  removeAlert a (removeAlert b l)
  = sortAlerts (filter (fun x => fileId x ≠ a ∧ fileId x ≠ b) l).
Proof.
  intros Hl. unfold removeAlert.
  rewrite <- sortAlerts_filter by (by apply Forall_filter_keep).
  rewrite list_filter_filter.
  apply sortAlerts_id, sortAlerts_descending. by apply Forall_filter_keep.
Qed.

(** X8: two successful resolves commute: on a collection whose fileIds
    parse as safe integers, resolving [a] and then [b] gives the same state
    as resolving [b] and then [a]. *)
Theorem X8_resolves_commute a b body body' s :
  Forall safeId (fileIds (alerts s)) →
  resolveAlert_resume a (Responded true body)
    (resolveAlert_resume b (Responded true body') s)
  = resolveAlert_resume b (Responded true body')
      (resolveAlert_resume a (Responded true body) s).
Proof.
  intros Hs%Forall_safeId_numeric.
  unfold resolveAlert_resume. simpl. unfold setAlerts. simpl.
  rewrite !removeAlert_removeAlert by done.
  rewrite (list_filter_iff (fun x => fileId x ≠ a ∧ fileId x ≠ b)
             (fun x => fileId x ≠ b ∧ fileId x ≠ a)); [done|].
  intros x. tauto.
Qed.

(** ** Requests and the key *)

Lemma run_snoc es e s : run (es ++ [e]) s = step (run es s) e.
Proof. unfold run. by rewrite foldl_app. Qed.

Lemma truthyKey_Some k key : truthyKey k = Some key → k = Some key ∧ key ≠ "".
Proof. destruct k as [[|c k]|]; simpl; intros [= <-]; done. Qed.

(** The key changes only by an entry in the open modal. *)
Lemma step_apiKey s e :
  apiKey (step s e)
  = match e with
    | PasswordSubmit k => if showPasswordModal s then Some k else apiKey s
    | _ => apiKey s
    end.
Proof.
  destruct e; cbn [step].
  - unfold handlePasswordSubmit, mountEffect.
    destruct (showPasswordModal s); [|done].
    destruct (decide _); [done|].
    simpl. destruct (hasFetched s); [done|].
    destruct inputPassword; [done|]. simpl. unfold fetchAlerts. simpl.
    by destruct (loading s).
  - unfold fetchAlerts. by destruct (loading s), (truthyKey (apiKey s)).
  - unfold fetchAlerts_resume.
    destruct (fetchAlerts_data r) as [[|a data]|err]; [done| |done].
    by destruct (Math_max_spread _).
  - unfold resolveAlert. by destruct (truthyKey (apiKey s)).
  - unfold resolveAlert_resume. by destruct (resolveAlert_response r).
  - unfold counterTick. by destruct (interval s), (truthyKey (apiKey s)).
  - unfold counterTick_resume. by destruct (counterTick_count r).
Qed.

(** One event issues at most one request, under the key the component
    holds after the event. *)
Lemma step_network s e :
  network (step s e) = network s
  ∨ ∃ r, network (step s e) = (network s ++ [r])%list
         ∧ truthyKey (apiKey (step s e)) = Some (xApiKey r).
Proof.
  destruct e; cbn [step].
  - unfold handlePasswordSubmit, mountEffect.
    destruct (showPasswordModal s); [|by left].
    destruct (decide _); [by left|].
    simpl. destruct (hasFetched s); [by left|].
    destruct inputPassword as [|c k]; [by left|]. simpl.
    unfold fetchAlerts. simpl. destruct (loading s); [by left|].
    right. by eexists.
  - unfold fetchAlerts.
    destruct (loading s), (truthyKey (apiKey s)) eqn:E; try by left.
    right. eexists. split; [done|]. done.
  - left. unfold fetchAlerts_resume.
    destruct (fetchAlerts_data r) as [[|a data]|err]; [done| |done].
    by destruct (Math_max_spread _).
  - unfold resolveAlert. destruct (truthyKey (apiKey s)) eqn:E; [|by left].
    right. eexists. split; [done|]. done.
  - left. unfold resolveAlert_resume. by destruct (resolveAlert_response r).
  - unfold counterTick.
    destruct (interval s), (truthyKey (apiKey s)) eqn:E; try by left.
    right. eexists. split; [done|]. done.
  - left. unfold counterTick_resume. by destruct (counterTick_count r).
Qed.

Lemma run_key_submitted es k :
  truthyKey (apiKey (run es initialState)) = Some k →
  k ≠ "" ∧ PasswordSubmit k ∈ es.
Proof.
  induction es as [|e es IH] using rev_ind; [done|].
  rewrite run_snoc, step_apiKey. intros Hk.
  destruct e; try (destruct (IH Hk) as [? ?]; split; [done|];
                   apply elem_of_app; by left).
  destruct (showPasswordModal (run es initialState)).
  - apply truthyKey_Some in Hk as [[= ->] Hne]. split; [done|].
    apply elem_of_app. right. left.
  - destruct (IH Hk) as [? ?]. split; [done|]. apply elem_of_app. by left.
Qed.

(** X9: every request the component ever issues carries, as its X-API-Key,
    a non-empty key that was entered in the password modal before; so as
    long as no non-empty key has been entered, nothing is requested. *)
Theorem X9_requests_carry_entered_key es :
  Forall (fun r => xApiKey r ≠ "" ∧ PasswordSubmit (xApiKey r) ∈ es)
    (network (run es initialState))
  ∧ ((∀ k, PasswordSubmit k ∈ es → k = "") →
     network (run es initialState) = []).
Proof.
  assert (Forall (fun r => xApiKey r ≠ "" ∧ PasswordSubmit (xApiKey r) ∈ es)
            (network (run es initialState))) as Hall.
  { induction es as [|e es IH] using rev_ind; [constructor|].
    assert (Forall (fun r => xApiKey r ≠ "" ∧ PasswordSubmit (xApiKey r) ∈ (es ++ [e])%list)
              (network (run es initialState))) as IH'.
    { eapply Forall_impl; [exact IH|]. intros r [? ?]. split; [done|].
      apply elem_of_app. by left. }
    pose proof (run_key_submitted (es ++ [e])) as Hkey.
    rewrite run_snoc in *.
    destruct (step_network (run es initialState) e) as [->|(r & -> & Hr)];
      [done|].
    apply Forall_app. split; [done|]. constructor; [|constructor].
    by apply Hkey. }
  split; [done|]. intros Hempty.
  destruct (network (run es initialState)) as [|r l]; [done|].
  apply Forall_cons in Hall as [[Hne Hin] _]. by apply Hempty in Hin.
Qed.

(** ** Single flight along a run *)

Lemma fileDataRequests_fetch r s :
  fileDataRequests (fetch r s)
  = (fileDataRequests s + if isFileDataRequest r then 1 else 0)%nat.
Proof.
  unfold fileDataRequests. simpl. rewrite filter_app, length_app.
  rewrite filter_cons, filter_nil.
  destruct (isFileDataRequest r); by case_decide.
Qed.

Lemma isFileDataRequest_fileData c key :
  isFileDataRequest {| method := "GET"; url := fileDataUrl c; xApiKey := key |}
  = true.
Proof. unfold isFileDataRequest, fileDataUrl. cbn. by destruct c. Qed.

Lemma isFileDataRequest_resolve id key :
  isFileDataRequest {| method := "POST"; url := resolveUrl id; xApiKey := key |}
  = false.
Proof. reflexivity. Qed.

Lemma fetchAlerts_flight s :
  (loading (fetchAlerts s) = loading s
   ∧ fileDataRequests (fetchAlerts s) = fileDataRequests s)
  ∨ (loading s = false ∧ loading (fetchAlerts s) = true
     ∧ fileDataRequests (fetchAlerts s) = S (fileDataRequests s)).
Proof.
  unfold fetchAlerts.
  destruct (loading s) eqn:El, (truthyKey (apiKey s)) eqn:Ek;
    try (left; by rewrite ?El).
  right. rewrite fileDataRequests_fetch, isFileDataRequest_fileData.
  split; [done|]. split; [done|].
  unfold fileDataRequests. simpl. lia.
Qed.

(** An event other than the completion of a fetch either leaves the guard
    and the page requests alone, or takes the free guard and issues one
    page request. *)
Lemma step_flight s e :
  isFetchSettled e = false →
  (loading (step s e) = loading s
   ∧ fileDataRequests (step s e) = fileDataRequests s)
  ∨ (loading s = false ∧ loading (step s e) = true
     ∧ fileDataRequests (step s e) = S (fileDataRequests s)).
Proof.
  destruct e; cbn [step isFetchSettled]; intros He; try done.
  - unfold handlePasswordSubmit, mountEffect.
    destruct (showPasswordModal s); [|by left].
    destruct (decide _); [by left|].
    simpl. destruct (hasFetched s); [by left|].
    destruct inputPassword as [|c k]; [by left|]. simpl.
    set (s1 := counterEffect_cleanup _).
    change (fileDataRequests (counterEffect (setHasFetched true (fetchAlerts s1))))
      with (fileDataRequests (fetchAlerts s1)).
    change (loading s) with (loading s1).
    change (fileDataRequests s) with (fileDataRequests s1).
    apply fetchAlerts_flight.
  - apply fetchAlerts_flight.
  - left. unfold resolveAlert. destruct (truthyKey (apiKey s)); [|done].
    split; [done|].
    rewrite fileDataRequests_fetch, isFileDataRequest_resolve. lia.
  - left. unfold resolveAlert_resume. by destruct (resolveAlert_response r).
  - left. unfold counterTick.
    destruct (interval s), (truthyKey (apiKey s)); try done.
    split; [done|]. by rewrite fileDataRequests_fetch.
  - left. unfold counterTick_resume. by destruct (counterTick_count r).
Qed.

(** X10: between two completions of fetchAlerts at most one page request is
    issued, whatever else happens: along any events that contain no fetch
    completion, the number of FileData requests grows by at most one, and
    by none when a fetch was pending at the start, in which case it is
    still pending at the end. *)
Theorem X10_one_page_request_in_flight es s :
  Forall (fun e => isFetchSettled e = false) es →
  (fileDataRequests s ≤ fileDataRequests (run es s)
   ≤ fileDataRequests s + if loading s then 0 else 1)%nat
  ∧ (loading s = true → loading (run es s) = true).
Proof.
  intros Hes. revert s. induction Hes as [|e es He Hes IH]; intros s.
  - simpl. split; [destruct (loading s); lia|done].
  - change (run (e :: es) s) with (run es (step s e)).
    destruct (IH (step s e)) as [Hn Hl].
    destruct (step_flight s e He) as [[El En]|(El & El' & En)].
    + rewrite El, En in *. done.
    + rewrite El', En in Hn. rewrite El. split; [lia|done].
Qed.

(** ** The fetch on mount *)

(** Once the modal is closed it stays closed, and the key and the mark of
    the mount effect stay as they are. *)
Lemma step_modal_closed s e :
  showPasswordModal s = false →
  showPasswordModal (step s e) = false
  ∧ apiKey (step s e) = apiKey s
  ∧ hasFetched (step s e) = hasFetched s.
Proof.
  intros Hm. destruct e; cbn [step].
  - unfold handlePasswordSubmit. by rewrite Hm.
  - unfold fetchAlerts. by destruct (loading s), (truthyKey (apiKey s)).
  - unfold fetchAlerts_resume.
    destruct (fetchAlerts_data r) as [[|a data]|err]; [done| |done].
    by destruct (Math_max_spread _).
  - unfold resolveAlert. by destruct (truthyKey (apiKey s)).
  - unfold resolveAlert_resume. by destruct (resolveAlert_response r).
  - unfold counterTick. by destruct (interval s), (truthyKey (apiKey s)).
  - unfold counterTick_resume. by destruct (counterTick_count r).
Qed.

Lemma run_modal_closed es s :
  showPasswordModal s = false →
  showPasswordModal (run es s) = false
  ∧ apiKey (run es s) = apiKey s
  ∧ hasFetched (run es s) = hasFetched s.
Proof.
  revert s. induction es as [|e es IH]; intros s Hm; [done|].
  change (run (e :: es) s) with (run es (step s e)).
  destruct (step_modal_closed s e Hm) as (Hm' & Hk & Hf).
  destruct (IH (step s e) Hm') as (? & ? & ?).
  repeat split; congruence.
Qed.

(** With the modal closed on an unusable key nothing is ever requested. *)
Lemma run_no_key_network es s :
  showPasswordModal s = false → truthyKey (apiKey s) = None →
  network (run es s) = network s.
Proof.
  intros Hm Hk. induction es as [|e es IH] using rev_ind; [done|].
  rewrite run_snoc.
  destruct (run_modal_closed es s Hm) as (Hm' & Hk' & _).
  destruct (step_network (run es s) e) as [->|(r & _ & Hr)]; [done|].
  destruct (step_modal_closed (run es s) e Hm') as (_ & Hk'' & _).
  rewrite Hk'', Hk', Hk in Hr. done.
Qed.

(** X11: the key is entered once, and the fetch on mount is made at most
    once.  The first key entry closes the modal; a non-empty key issues
    one page request, for cutoffId=0, takes the guard and marks the fetch
    on mount as made.  Whatever follows, the modal stays closed, the key
    and the mark stay as the entry left them, and a further call of the
    handler changes nothing; after an empty key no request is ever
    issued. *)
Theorem X11_fetch_on_mount_once k es k' :
  let s0 := handlePasswordSubmit k initialState in
  (k ≠ "" →
   network s0 = [{| method := "GET"; url := fileDataUrl "0"; xApiKey := k |}]
   ∧ loading s0 = true ∧ hasFetched s0 = true)
  ∧ (k = "" → network (run es s0) = [])
  ∧ showPasswordModal (run es s0) = false
  ∧ apiKey (run es s0) = Some k
  ∧ hasFetched (run es s0) = hasFetched s0
  ∧ handlePasswordSubmit k' (run es s0) = run es s0.
Proof.
  intros s0.
  assert (showPasswordModal s0 = false ∧ apiKey s0 = Some k) as [Hm Hk].
  { subst s0. by destruct k. }
  destruct (run_modal_closed es s0 Hm) as (Hm' & Hk' & Hf').
  split; [|split; [|split; [done|split; [congruence|split; [done|]]]]].
  - intros Hne. subst s0. destruct k as [|c k]; [done|]. by repeat split.
  - intros ->. rewrite run_no_key_network; [done..|]. by rewrite Hk.
  - unfold handlePasswordSubmit. by rewrite Hm'.
Qed.

(** ** Without a usable key *)

Lemma step_no_key s e :
  truthyKey (apiKey s) = None → isTrigger e = true → step s e = s.
Proof.
  intros Hk. destruct e; cbn [step isTrigger]; intros He; try done.
  - unfold fetchAlerts. rewrite Hk. by destruct (loading s).
  - unfold resolveAlert. by rewrite Hk.
  - unfold counterTick. rewrite Hk. by destruct (interval s).
Qed.

(** X12: without a usable key (none entered yet, or the empty string
    entered) Load More, the resolve buttons and the counter tick do
    nothing at all: the state, with its request log, stays as it is.
    Entering the empty string leaves the component without a usable key
    and closes the modal all the same. *)
Theorem X12_no_key_no_effect es s :
  truthyKey (apiKey s) = None →
  Forall (fun e => isTrigger e = true) es →
  run es s = s
  ∧ truthyKey (apiKey (handlePasswordSubmit "" s)) = None
  ∧ showPasswordModal (handlePasswordSubmit "" s) = false
  ∧ network (handlePasswordSubmit "" s) = network s.
Proof.
  intros Hk Hes. split.
  - induction Hes as [|e es He Hes IH]; [done|].
    change (run (e :: es) s) with (run es (step s e)).
    by rewrite (step_no_key s e Hk He).
  - unfold handlePasswordSubmit, mountEffect.
    destruct (showPasswordModal s) eqn:Hmodal; [|done].
    destruct (decide _); [done|]. simpl. by destruct (hasFetched s).
Qed.

(** ** The counter *)

Lemma step_counter s e :
  counter (step s e)
  = match e with
    | CounterSettled r =>
        match counterTick_count r with
        | Ok n => n
        | Throw _ => counter s
        end
    | _ => counter s
    end.
Proof.
  destruct e; cbn [step].
  - unfold handlePasswordSubmit, mountEffect.
    destruct (showPasswordModal s); [|done].
    destruct (decide _); [done|].
    simpl. destruct (hasFetched s); [done|].
    destruct inputPassword; [done|]. simpl. unfold fetchAlerts. simpl.
    by destruct (loading s).
  - unfold fetchAlerts. by destruct (loading s), (truthyKey (apiKey s)).
  - unfold fetchAlerts_resume.
    destruct (fetchAlerts_data r) as [[|a data]|err]; [done| |done].
    by destruct (Math_max_spread _).
  - unfold resolveAlert. by destruct (truthyKey (apiKey s)).
  - unfold resolveAlert_resume. by destruct (resolveAlert_response r).
  - unfold counterTick. by destruct (interval s), (truthyKey (apiKey s)).
  - unfold counterTick_resume. by destruct (counterTick_count r).
Qed.

(** X13: the published counter is the count of the last counter response
    that was read successfully, and the counter the component started with
    when there was none: failed ticks, fetches, resolves and key entries
    never change it. *)
Theorem X13_counter_is_last_good_count es s :
  counter (run es s) = default (counter s) (lastCount es).
Proof.
  induction es as [|e es IH] using rev_ind; [done|].
  rewrite run_snoc, step_counter. unfold lastCount in *.
  rewrite foldl_app. simpl.
  destruct e; try done.
  by destruct (counterTick_count r).
Qed.

Lemma Array_filterM_rows (rows : list CounterRow) :
  Array_filterM isUniqueCounter (Some <$> rows)
  = Ok (Some <$> filter (fun row => rowKey row = "unique_counter") rows).
Proof.
  induction rows as [|row rows IH]; [done|].
  cbn [fmap list_fmap Array_filterM isUniqueCounter]. rewrite IH.
  cbn [mbind result_bind mret result_ret]. rewrite filter_cons.
  by case_bool_decide; case_decide.
Qed.

Lemma Array_filterM_null (rows : list (option CounterRow)) :
  None ∈ rows → ∃ e, Array_filterM isUniqueCounter rows = Throw e.
Proof.
  induction rows as [|row rows IH]; intros Hin.
  - by apply not_elem_of_nil in Hin.
  - destruct row as [row|]; [|by eexists].
    apply elem_of_cons in Hin as [|Hin]; [done|].
    destruct (IH Hin) as [e He]. exists e.
    cbn [Array_filterM isUniqueCounter]. by rewrite He.
Qed.

(** X14: the counter poll reads the count of the first row whose rowKey is
    unique_counter, whatever rows follow it; but a null row anywhere in
    the array makes the tick fail, also when a matching row is there. *)
Theorem X14_counter_first_match pre row post s :
  Forall (fun r => rowKey r ≠ "unique_counter") pre →
  rowKey row = "unique_counter" →
  (let r := Responded true (CounterData (Some <$> (pre ++ row :: post)%list)) in
   counterTick_count r = Ok (count row)
   ∧ counter (counterTick_resume r s) = count row)
  ∧ (∀ rows, None ∈ rows →
             ∃ e, counterTick_count (Responded true (CounterData rows))
                  = Throw e).
Proof.
  intros Hpre Hrow. split.
  - assert (counterTick_count
              (Responded true (CounterData (Some <$> (pre ++ row :: post)%list)))
            = Ok (count row)) as Hc.
    { cbn [counterTick_count]. rewrite Array_filterM_rows.
      rewrite filter_app, (filter_none _ pre), filter_cons_True by done.
      done. }
    split; [done|]. unfold counterTick_resume. by rewrite Hc.
  - intros rows Hin. destruct (Array_filterM_null rows Hin) as [e He].
    exists e. cbn [counterTick_count]. by rewrite He.
Qed.

(** X15: the counter poll never touches the feed: along any sequence of
    ticks and counter responses the collection, the cutoff, the guard and
    the published error stay as they are. *)
Theorem X15_counter_poll_leaves_feed es s :
  Forall (fun e => isCounterEvent e = true) es →
  alerts (run es s) = alerts s
  ∧ lastCutoffId (run es s) = lastCutoffId s
  ∧ loading (run es s) = loading s
  ∧ error (run es s) = error s.
Proof.
  intros Hes. revert s. induction Hes as [|e es He Hes IH]; intros s; [done|].
  change (run (e :: es) s) with (run es (step s e)).
  destruct (IH (step s e)) as (-> & -> & -> & ->).
  destruct e; cbn [step isCounterEvent] in *; try done.
  - unfold counterTick. by destruct (interval s), (truthyKey (apiKey s)).
  - unfold counterTick_resume. by destruct (counterTick_count r).
Qed.

(** ** The cutoff along a run *)

(** An event leaves the cutoff as it was or sets it to the text of the
    maximum of the page it delivers. *)
Lemma step_lastCutoffId_value s e :
  lastCutoffId (step s e) = lastCutoffId s
  ∨ ∃ a data,
      fetchedPage e = Some (a :: data)
      ∧ lastCutoffId (step s e)
        = number_toString
            (Math_max ((fun a => parseInt (fileId a)) <$> a :: data)).
Proof.
  destruct (decide (lastCutoffId (step s e) = lastCutoffId s)) as [|Hne];
    [by left|right].
  destruct e; try (by destruct (step_lastCutoffId _ _ Hne) as (? & ? & _)).
  cbn [step fetchedPage] in *.
  destruct (fetchAlerts_resume_cases r s)
    as [[_ Heq]|[(a & data & Hr & _ & Heq)
                |[(a & data & _ & _ & Heq)|(err & _ & Heq)]]];
    rewrite Heq in *; try done.
  exists a, data. by rewrite Hr.
Qed.

Lemma canonicalId_toString m :
  Z.abs m ≤ 2 ^ 53 - 1 → canonicalId (number_toString (Int m)).
Proof.
  intros Hm. unfold canonicalId, safeId. by rewrite parseInt_toString.
Qed.

(** X16: as long as every fetched fileId parses as a safe integer, the
    cutoff is at every moment the canonical decimal text of a safe integer,
    so the cutoffId sent with the next page request is a well-formed
    number: it is the initial 0 or the largest id of a page that was
    delivered. *)
Theorem X16_cutoff_stays_canonical es :
  pagesSatisfy (fun data => Forall safeId (fileIds data)) es →
  let s := run es initialState in
  canonicalId (lastCutoffId s)
  ∧ (lastCutoffId s = "0"
     ∨ ∃ e data, e ∈ es ∧ fetchedPage e = Some data ∧ cutoffIsPageMax data s).
Proof.
  induction es as [|e es IH] using rev_ind; intros Hes s.
  { split; [|by left]. subst s. simpl. by apply (canonicalId_toString 0). }
  apply Forall_app in Hes as [Hes He]. apply Forall_cons in He as [He _].
  destruct (IH Hes) as [Hcan Hmax]. subst s. rewrite run_snoc.
  set (s := run es initialState) in *.
  destruct (step_lastCutoffId_value s e) as [Hcut|(a & data & Ef & Hcut)].
  - split; [by rewrite Hcut|]. rewrite Hcut.
    destruct Hmax as [?|(e0 & d0 & Hin & Hd0 & m & Hm)]; [by left|].
    right. exists e0, d0. split; [apply elem_of_app; by left|].
    split; [done|]. exists m. by rewrite Hcut.
  - rewrite Ef in He.
    destruct (Math_max_numeric (a :: data)) as (m & Hm & (b & Hb & Hbm) & Hle);
      [done|by apply Forall_safeId_numeric|].
    assert (Z.abs m ≤ 2 ^ 53 - 1) as Hbound.
    { unfold fileIds in He. rewrite Forall_fmap, Forall_forall in He.
      specialize (He b Hb). simpl in He. unfold safeId in He.
      by rewrite Hbm in He. }
    rewrite Hcut, Hm. split; [by apply canonicalId_toString|].
    right. exists e, (a :: data). split; [apply elem_of_app; right; left|].
    split; [done|]. exists m. rewrite Hcut, Hm, parseInt_toString.
    split; [done|]. split; [done|]. split; [by exists b|done].
Qed.

(** ** The image overlay *)

Lemma Array_find_unique l a :
  uniqueIds l → a ∈ l →
  Array_find (fun x => bool_decide (fileId x = fileId a)) l = Some a.
Proof.
  unfold uniqueIds, fileIds. induction l as [|x l IH]; intros Hu Ha.
  - by apply not_elem_of_nil in Ha.
  - rewrite fmap_cons in Hu. apply NoDup_cons in Hu as [Hx Hu].
    cbn [Array_find]. apply elem_of_cons in Ha as [->|Ha].
    + by rewrite bool_decide_eq_true_2.
    + rewrite bool_decide_eq_false_2; [by apply IH|].
      intros Heq. apply Hx. rewrite Heq. by apply list_elem_of_fmap_2.
Qed.

Lemma Array_find_absent l id :
  id ∉ fileIds l →
  Array_find (fun x => bool_decide (fileId x = id)) l = None.
Proof.
  unfold fileIds. induction l as [|x l IH]; intros Hid; [done|].
  rewrite fmap_cons in Hid. apply not_elem_of_cons in Hid as [Hx Hl].
  cbn [Array_find]. rewrite bool_decide_eq_false_2 by done. by apply IH.
Qed.

(** X17: clicking an alert of a collection with unique fileIds opens the
    overlay on the image of that very alert (its sasUrl), provided its
    fileId is not the empty string; [toggleEnlargedImage(null)] closes
    the overlay. *)
Theorem X17_overlay_shows_clicked_alert l a prev :
  uniqueIds l → a ∈ l → fileId a ≠ "" →
  overlay l (toggleEnlargedImage (Some (fileId a)) prev)
  = Some (Some (sasUrl a))
  ∧ overlay l (toggleEnlargedImage None prev) = None.
Proof.
  intros Hu Ha Hne. split; [|done].
  unfold toggleEnlargedImage, overlay, enlargedImageSrc.
  destruct (fileId a) as [|c id] eqn:E; [done|].
  rewrite <- E. by rewrite Array_find_unique.
Qed.

(** X18: resolveAlert does not close the overlay: when the overlay is open
    on an alert and that alert is resolved successfully, the overlay is
    still rendered, and its image has no source. *)
Theorem X18_overlay_after_resolve id body s :
  id ≠ "" →
  let s' := resolveAlert_resume id (Responded true body) s in
  enlargedImageSrc (alerts s') id = None
  ∧ overlay (alerts s') (Some id) = Some None.
Proof.
  intros Hne s'.
  assert (enlargedImageSrc (alerts s') id = None) as Hsrc.
  { unfold enlargedImageSrc. rewrite Array_find_absent; [done|].
    subst s'. rewrite resolveAlert_resume_alerts. simpl.
    rewrite removeAlert_fileIds. tauto. }
  split; [done|]. unfold overlay. destruct id; [done|]. by rewrite Hsrc.
Qed.

(** ** The published error along a run *)

Lemma step_error_kept s e :
  startsFetch e = false → is_Some (error s) → is_Some (error (step s e)).
Proof.
  intros He Herr. destruct e; cbn [step startsFetch] in *; try done.
  - unfold fetchAlerts_resume.
    destruct (fetchAlerts_data r) as [[|a data]|err]; [done| |done].
    by destruct (Math_max_spread _).
  - unfold resolveAlert. by destruct (truthyKey (apiKey s)).
  - unfold resolveAlert_resume. by destruct (resolveAlert_response r).
  - unfold counterTick. by destruct (interval s), (truthyKey (apiKey s)).
  - unfold counterTick_resume. by destruct (counterTick_count r).
Qed.

(** X19: a published error is only ever cleared by the start of a fetch:
    along any events among which there is no Load More and no key entry,
    which may well be successful page merges, successful resolves and
    counter ticks, an error that is shown stays shown. *)
Theorem X19_error_stays_until_next_fetch es s :
  Forall (fun e => startsFetch e = false) es →
  is_Some (error s) → is_Some (error (run es s)).
Proof.
  intros Hes. revert s. induction Hes as [|e es He Hes IH]; intros s Herr;
    [done|].
  change (run (e :: es) s) with (run es (step s e)).
  by apply IH, step_error_kept.
Qed.

(** ** After a completion *)

(** X20: the guard never stays taken: after the completion of a fetch,
    failed or not, a Load More with a usable key issues the next page
    request, for the cutoff the completion left, and takes the guard
    again. *)
Theorem X20_load_more_after_completion r s key :
  truthyKey (apiKey s) = Some key →
  let s1 := fetchAlerts_resume r s in
  let req := {| method := "GET"; url := fileDataUrl (lastCutoffId s1);
                xApiKey := key |} in
  fetchAlerts s1 = fetch req (setError None (setLoading true s1))
  ∧ network (fetchAlerts s1) = (network s ++ [req])%list
  ∧ loading (fetchAlerts s1) = true.
Proof.
  intros Hk s1 req.
  assert (loading s1 = false) as Hl.
  { subst s1. unfold fetchAlerts_resume.
    destruct (fetchAlerts_data r) as [[|a data]|err]; [done| |done].
    by destruct (Math_max_spread _). }
  assert (apiKey s1 = apiKey s) as Ha
    by apply (step_apiKey s (FetchSettled r)).
  assert (fetchAlerts s1 = fetch req (setError None (setLoading true s1))) as ->.
  { unfold fetchAlerts. by rewrite Hl, Ha, Hk. }
  split; [done|]. split; [|done].
  cbn [network fetch setError setLoading]. f_equal.
  apply fetchAlerts_resume_network.
Qed.

(** ** A page of newer records *)

Lemma filter_valueIs_apart k (l1 l2 : list Alert) :
  Forall (fun a => Forall (idGt a) l2) l1 →
  filter (valueIs k) l1 = [] ∨ filter (valueIs k) l2 = [].
Proof.
  intros Hgt.
  destruct (filter (valueIs k) l1) as [|a f1] eqn:E1; [by left|]. right.
  assert (a ∈ filter (valueIs k) l1) as Ha by (rewrite E1; left).
  apply list_elem_of_filter in Ha as [Hak Ha].
  rewrite Forall_forall in Hgt. specialize (Hgt a Ha).
  apply filter_none. eapply Forall_impl; [exact Hgt|].
  intros b Hab Hbk. unfold idGt, valueIs in *. rewrite Hak, Hbk in Hab. lia.
Qed.

(** X21: a page that honours the cutoff goes on top: when the stored
    collection is in descending order and every record of the page has an
    integer id greater than every stored one, nothing of the page is
    filtered out and the new collection is the sorted page followed by the
    stored records as they were. *)
Theorem X21_newer_page_goes_on_top data prevAlerts :
  Forall safeId (fileIds data) →
  Forall safeId (fileIds prevAlerts) →
  descending prevAlerts →
  Forall (fun a => Forall (idGt a) prevAlerts) data →
  mergeAlerts data prevAlerts = (sortAlerts data ++ prevAlerts)%list.
Proof.
  intros Hd%Forall_safeId_numeric Hp%Forall_safeId_numeric Hdesc Hgt.
  assert (filter (fun a => fileId a ∉ fileIds prevAlerts) data = data) as Hnew.
  { rewrite <- (filter_ext_elem (fun _ => True) _ data).
    - clear. induction data as [|a data IH]; [done|].
      by rewrite filter_cons_True, IH.
    - intros a Ha. split; [|done]. intros _ Hin.
      unfold fileIds in Hin. apply list_elem_of_fmap in Hin as (b & Hab & Hb).
      rewrite Forall_forall in Hgt. specialize (Hgt a Ha).
      rewrite Forall_forall in Hgt. specialize (Hgt b Hb).
      unfold idGt in Hgt. rewrite Hab in Hgt.
      destruct (parseInt (fileId b)); try done. lia. }
  rewrite mergeAlerts_eq, Hnew.
  assert (Forall (fun a => Forall (idGt a) prevAlerts) (sortAlerts data))
    as Hgt' by (by rewrite sortAlerts_Permutation).
  apply descending_unique.
  - apply sortAlerts_numeric. by apply Forall_app.
  - apply Forall_app. split; [by apply sortAlerts_numeric|done].
  - apply sortAlerts_descending. by apply Forall_app.
  - apply StronglySorted_app_2; [|by apply sortAlerts_descending|done].
    intros a b Ha Hb. rewrite Forall_forall in Hgt'. specialize (Hgt' a Ha).
    rewrite Forall_forall in Hgt'. specialize (Hgt' b Hb).
    unfold idGt in Hgt'. unfold idGe.
    destruct (parseInt (fileId a)), (parseInt (fileId b)); try done. lia.
  - intros k. rewrite sortAlerts_stable by (by apply Forall_app).
    rewrite !filter_app, sortAlerts_stable by done.
    destruct (filter_valueIs_apart k data prevAlerts Hgt) as [->| ->].
    + by rewrite app_nil_r.
    + by rewrite app_nil_r.
Qed.

End AlertViewer.

(** * The statements on sample runs *)

(** The runs below are made on an engine that takes [sampleLimit] call
    arguments.  A lemma named after a theorem applies it to a concrete run,
    with its hypotheses evaluated; the others are runs on which a property
    fails when it is stated without its hypotheses. *)

(** ** Dedup invariant *)

(** C1, as stated, fails: the dedup set is built from the previous
    collection only, so a page that carries the same fileId twice puts it
    into the collection twice. *)
Lemma C1_page_with_repeated_id :
  let s := run sampleLimit [FetchSettled (samplePage ["1"; "1"])]
             initialState in
  fileIds (alerts s) = ["1"; "1"] ∧ ¬ uniqueIds (alerts s).
Proof. intros s. split; [vm_compute; reflexivity|refute_by_evaluation]. Qed.

Lemma C1_dedup_invariant_witness :
  let es := [FetchSettled (samplePage ["3"; "1"; "2"]);
             FetchSettled (samplePage ["5"; "3"; "4"]);
             ResolveSettled "4" (Responded true tt);
             FetchSettled (samplePage ["4"; "5"; "6"])] in
  pagesSatisfy uniqueIds es
  ∧ uniqueIds (alerts (run sampleLimit es initialState))
  ∧ fileIds (alerts (run sampleLimit es initialState))
    = ["6"; "5"; "4"; "3"; "2"; "1"].
Proof.
  intros es.
  assert (pagesSatisfy uniqueIds es) as Hes.
  { decide_by_evaluation. }
  split; [exact Hes|].
  split; [exact (C1_dedup_invariant sampleLimit es Hes)|].
  vm_compute. reflexivity.
Defined.

(** ** Order invariant *)

(** C2, as stated, fails: ["7"] and ["07"] are different fileIds with the
    same integer value, both are kept, and the collection is not strictly
    descending. *)
Lemma C2_equal_values_kept :
  let s := run sampleLimit [FetchSettled (samplePage ["7"; "07"])]
             initialState in
  fileIds (alerts s) = ["7"; "07"]
  ∧ parseInt "7" = parseInt "07"
  ∧ ¬ strictlyDescending (alerts s).
Proof.
  intros s. split; [vm_compute; reflexivity|]. split; [reflexivity|].
  refute_by_evaluation.
Qed.

Lemma C2_order_invariant_witness :
  let es := [FetchSettled (samplePage ["3"; "1"; "2"]);
             FetchSettled (samplePage ["5"; "3"; "4"]);
             ResolveSettled "3" (Responded true tt)] in
  pagesSatisfy (fun data => Forall safeId (fileIds data)) es
  ∧ pagesSatisfy
      (fun data => uniqueIds data ∧ Forall canonicalId (fileIds data)) es
  ∧ descending (alerts (run sampleLimit es initialState))
  ∧ strictlyDescending (alerts (run sampleLimit es initialState))
  ∧ fileIds (alerts (run sampleLimit es initialState)) = ["5"; "4"; "2"; "1"].
Proof.
  intros es.
  assert (pagesSatisfy (fun data => Forall safeId (fileIds data)) es) as H1.
  { decide_by_evaluation. }
  assert (pagesSatisfy
            (fun data => uniqueIds data ∧ Forall canonicalId (fileIds data)) es)
    as H2.
  { decide_by_evaluation. }
  destruct (C2_order_invariant sampleLimit es H1) as [Hd Hs].
  split; [exact H1|]. split; [exact H2|]. split; [exact Hd|].
  split; [exact (Hs H2)|]. vm_compute. reflexivity.
Defined.

(** ** Cursor *)

(** C3, as stated, fails: a successful, non-empty page with one fileId that
    does not parse sets the cutoff to the text [NaN], not to the largest
    integer id of the page (here 5). *)
Lemma C3_cutoff_not_a_number :
  let s' := fetchAlerts_resume sampleLimit (samplePage ["abc"; "5"])
              initialState in
  lastCutoffId s' = "NaN"
  ∧ ¬ cutoffIsPageMax [sampleAlert "abc"; sampleAlert "5"] s'.
Proof.
  intros s'. split; [vm_compute; reflexivity|].
  intros (m & Hm & _). vm_compute in Hm. discriminate Hm.
Qed.

Lemma C3_cursor_update_witness :
  let r := samplePage ["5"; "6"; "4"] in
  let data := sampleAlert <$> ["5"; "6"; "4"] in
  let s := run sampleLimit [FetchSettled (samplePage ["3"; "1"; "2"])]
             initialState in
  (fetchAlerts_data r = Ok data ∧ data ≠ [] ∧ Forall safeId (fileIds data)
   ∧ Z.of_nat (length data) ≤ sampleLimit)
  ∧ cutoffIsPageMax data (fetchAlerts_resume sampleLimit r s)
  ∧ (∃ m, parseInt (lastCutoffId (fetchAlerts_resume sampleLimit r s)) = Int m
          ∧ 3 ≤ m)
  ∧ lastCutoffId s = "3"
  ∧ lastCutoffId (fetchAlerts_resume sampleLimit r s) = "6".
Proof.
  intros r data s.
  assert (fetchAlerts_data r = Ok data) as H1 by (vm_compute; reflexivity).
  assert (data ≠ []) as H2 by (vm_compute; discriminate).
  assert (Forall safeId (fileIds data)) as H3 by decide_by_evaluation.
  assert (Z.of_nat (length data) ≤ sampleLimit) as H4 by decide_by_evaluation.
  destruct (C3_cursor_update sampleLimit r s data H1 H2 H3 H4)
    as (Hmax & Hmono & _).
  split; [by repeat split|]. split; [exact Hmax|]. split.
  - apply Hmono; [vm_compute; reflexivity|decide_by_evaluation].
  - split; vm_compute; reflexivity.
Defined.

(** ** Single-flight guard *)

Lemma C4_single_flight_witness :
  let s := run sampleLimit [PasswordSubmit "secret"] initialState in
  loading s = true
  ∧ length (network s) = 1%nat
  ∧ fetchAlerts s = s
  ∧ run sampleLimit [LoadMore; LoadMore] s = s.
Proof.
  intros s.
  assert (loading s = true) as Hl by (vm_compute; reflexivity).
  destruct (C4_single_flight sampleLimit s Hl) as (Heq & _ & Hstep & _).
  split; [exact Hl|]. split; [vm_compute; reflexivity|].
  split; [exact Heq|]. unfold run. cbn [foldl]. rewrite Hstep. exact Hstep.
Defined.

(** ** Failure atomicity *)

(** A page of a million records, more than an engine takes as call
    arguments: the call fails and the page is in the collection. *)
Lemma C5_partial_merge_above_limit_witness :
  let data := sampleAlert <$> consecutiveIds 1 (Z.to_nat 1000000) in
  let r := pageOf data in
  let s' := fetchAlerts_resume sampleLimit r initialState in
  (fetchAlerts_data r = Ok data
   ∧ sampleLimit < Z.of_nat (length data)
   ∧ 0 < Z.of_nat (length data))
  ∧ error s' = Some "Failed to fetch alerts. Please try again later."
  ∧ loading s' = false
  ∧ lastCutoffId s' = "0"
  ∧ alerts initialState = []
  ∧ sampleAlert "1" ∈ alerts s'.
Proof.
  intros data r s'.
  assert (fetchAlerts_data r = Ok data) as H1 by apply fetchAlerts_data_pageOf.
  assert (sampleLimit < Z.of_nat (length data)) as H2
    by (vm_compute; reflexivity).
  assert (0 < Z.of_nat (length data)) as H3 by (vm_compute; reflexivity).
  destruct (C5_partial_merge_above_limit sampleLimit r data initialState
              H1 H2 H3) as (He & Hl & Hc & _ & Hin).
  split; [exact (conj H1 (conj H2 H3))|].
  split; [exact He|]. split; [exact Hl|]. split; [exact Hc|].
  split; [reflexivity|].
  apply (Hin (sampleAlert "1")).
  - decide_by_evaluation.
  - vm_compute. apply not_elem_of_nil.
Defined.

Lemma X22_failure_before_merge_witness :
  let s := run sampleLimit
             [PasswordSubmit "secret";
              FetchSettled (samplePage ["3"; "1"; "2"]);
              LoadMore]
             initialState in
  let r : Settled FileDataBody := Responded false FileDataNotJson in
  let r' : Settled unit := Rejected "TypeError: Failed to fetch" in
  (fetchAlerts_data r = Throw "Error: Network response was not ok"
   ∧ resolveAlert_response r' = Throw "TypeError: Failed to fetch")
  ∧ loading s = true
  ∧ fileIds (alerts (fetchAlerts_resume sampleLimit r s)) = ["3"; "2"; "1"]
  ∧ lastCutoffId (fetchAlerts_resume sampleLimit r s) = "3"
  ∧ loading (fetchAlerts_resume sampleLimit r s) = false
  ∧ alerts (resolveAlert_resume "2" r' s) = alerts s.
Proof.
  intros s r r'.
  assert (fetchAlerts_data r = Throw "Error: Network response was not ok")
    as H1 by reflexivity.
  assert (resolveAlert_response r' = Throw "TypeError: Failed to fetch")
    as H2 by reflexivity.
  destruct (X22_failure_before_merge sampleLimit r _ "2" r' _ s H1 H2)
    as ((Ha & Hc & _ & Hl & _) & _ & (Ha' & _) & _).
  split; [by split|]. split; [vm_compute; reflexivity|].
  split; [rewrite Ha; vm_compute; reflexivity|].
  split; [rewrite Hc; vm_compute; reflexivity|].
  split; [exact Hl|exact Ha'].
Defined.

(** ** Resolve *)

(** C6, as stated, fails: the page [1, abc, 2] is stored in that order (the
    comparator returns [NaN] next to [abc]); resolving [abc] re-sorts the two
    records left, and the collection is not the prior one without [abc]. *)
Lemma C6_resolve_reorders :
  let s := run sampleLimit [FetchSettled (samplePage ["1"; "abc"; "2"])]
             initialState in
  let s' := resolveAlert_resume "abc" (Responded true tt) s in
  fileIds (alerts s) = ["1"; "abc"; "2"]
  ∧ fileIds (filter (fun a => fileId a ≠ "abc") (alerts s)) = ["1"; "2"]
  ∧ fileIds (alerts s') = ["2"; "1"]
  ∧ alerts s' ≠ filter (fun a => fileId a ≠ "abc") (alerts s).
Proof.
  intros s s'. do 3 (split; [vm_compute; reflexivity|]).
  intros Heq. apply (f_equal fileIds) in Heq. vm_compute in Heq.
  discriminate Heq.
Qed.

Lemma C6_resolve_postcondition_witness :
  let es := [FetchSettled (samplePage ["3"; "1"; "2"]);
             FetchSettled (samplePage ["5"; "3"; "4"])] in
  let s := run sampleLimit es initialState in
  pagesSatisfy (fun data => Forall safeId (fileIds data)) es
  ∧ fileIds (alerts s) = ["5"; "4"; "3"; "2"; "1"]
  ∧ fileIds (alerts (resolveAlert_resume "3" (Responded true tt) s))
    = ["5"; "4"; "2"; "1"]
  ∧ ("9" ∉ fileIds (alerts s))
  ∧ resolveAlert_resume "9" (Responded true tt) s = s.
Proof.
  intros es s.
  assert (pagesSatisfy (fun data => Forall safeId (fileIds data)) es) as Hes.
  { decide_by_evaluation. }
  assert ("9" ∉ fileIds (alerts s)) as Hid by decide_by_evaluation.
  destruct (C6_resolve_postcondition sampleLimit es "3" tt Hes) as (H3 & _).
  destruct (C6_resolve_postcondition sampleLimit es "9" tt Hes)
    as (_ & _ & _ & H9 & _).
  split; [exact Hes|]. split; [vm_compute; reflexivity|].
  split; [fold s in H3; rewrite H3; vm_compute; reflexivity|].
  split; [exact Hid|exact (H9 Hid)].
Defined.

(** ** Merge and resolve commute *)

(** C7, as stated, fails: on the collection [1, abc, 2], with the page
    [x, 3] and the resolved id [abc], which is not in the page, the two
    orders of completion leave different collections. *)
Lemma C7_orders_differ :
  let s := run sampleLimit [FetchSettled (samplePage ["1"; "abc"; "2"])]
             initialState in
  let r := samplePage ["x"; "3"] in
  let resolved := resolveAlert_resume "abc" (Responded true tt) in
  fileIds (alerts s) = ["1"; "abc"; "2"]
  ∧ fetchAlerts_data r = Ok (sampleAlert <$> ["x"; "3"])
  ∧ ("abc" ∉ fileIds (sampleAlert <$> ["x"; "3"]))
  ∧ fileIds (alerts (resolved (fetchAlerts_resume sampleLimit r s)))
    = ["3"; "2"; "1"; "x"]
  ∧ fileIds (alerts (fetchAlerts_resume sampleLimit r (resolved s)))
    = ["2"; "1"; "x"; "3"]
  ∧ alerts (resolved (fetchAlerts_resume sampleLimit r s))
    ≠ alerts (fetchAlerts_resume sampleLimit r (resolved s)).
Proof.
  intros s r resolved. do 2 (split; [vm_compute; reflexivity|]).
  split; [decide_by_evaluation|]. do 2 (split; [vm_compute; reflexivity|]).
  intros Heq. apply (f_equal fileIds) in Heq. vm_compute in Heq.
  discriminate Heq.
Qed.

Lemma C7_merge_resolve_commute_witness :
  let s := run sampleLimit [FetchSettled (samplePage ["3"; "1"; "2"])]
             initialState in
  let data := sampleAlert <$> ["5"; "3"; "4"] in
  let r := pageOf data in
  (fetchAlerts_data r = Ok data
   ∧ Forall safeId (fileIds (alerts s))
   ∧ Forall safeId (fileIds data)
   ∧ ("2" ∉ fileIds data))
  ∧ resolveAlert_resume "2" (Responded true tt)
      (fetchAlerts_resume sampleLimit r s)
    = fetchAlerts_resume sampleLimit r
        (resolveAlert_resume "2" (Responded true tt) s)
  ∧ fileIds (alerts (fetchAlerts_resume sampleLimit r
                       (resolveAlert_resume "2" (Responded true tt) s)))
    = ["5"; "4"; "3"; "1"].
Proof.
  intros s data r.
  assert (fetchAlerts_data r = Ok data) as H1 by (vm_compute; reflexivity).
  assert (Forall safeId (fileIds (alerts s))) as H2 by decide_by_evaluation.
  assert (Forall safeId (fileIds data)) as H3 by decide_by_evaluation.
  assert ("2" ∉ fileIds data) as H4 by decide_by_evaluation.
  split; [by repeat split|].
  split; [exact (C7_merge_resolve_commute sampleLimit r data "2" tt s
                   H1 H2 H3 H4)|].
  vm_compute. reflexivity.
Defined.

(** ** Malformed payloads *)

(** C8, as stated, fails: a page with a fileId that does not parse is not
    rejected.  The record is merged, so the fetch is not aborted. *)
Lemma C8_unparsable_id_is_merged :
  let s' := fetchAlerts_resume sampleLimit (samplePage ["abc"]) initialState in
  fileIds (alerts s') = ["abc"]
  ∧ lastCutoffId s' = "NaN"
  ∧ error s' = None
  ∧ ¬ fetchAborted initialState s'.
Proof.
  intros s'. do 3 (split; [vm_compute; reflexivity|]).
  intros (Ha & _). vm_compute in Ha. discriminate Ha.
Qed.

Lemma C8_malformed_payload_witness :
  let s := run sampleLimit [FetchSettled (samplePage ["3"; "1"; "2"])]
             initialState in
  let body := FileData [Some (sampleAlert "4"); None] in
  let s' := fetchAlerts_resume sampleLimit (Responded true body) s in
  malformedBody body
  ∧ fetchAborted s s'
  ∧ error s' = Some "Failed to fetch alerts. Please try again later."
  ∧ fileIds (alerts s') = ["3"; "2"; "1"]
  ∧ lastCutoffId s' = "3".
Proof.
  intros s body s'.
  assert (malformedBody body) as Hbad by decide_by_evaluation.
  destruct (C8_malformed_payload sampleLimit body s Hbad) as (Hab & Herr).
  split; [exact Hbad|]. split; [exact Hab|]. split; [exact Herr|].
  split; vm_compute; reflexivity.
Defined.

Lemma X23_unparsable_id_page_witness :
  let s := run sampleLimit [FetchSettled (samplePage ["3"; "1"; "2"])]
             initialState in
  let data := sampleAlert <$> ["7"; "abc"] in
  let s' := fetchAlerts_resume sampleLimit (pageOf data) s in
  (sampleAlert "abc" ∈ data ∧ parseInt (fileId (sampleAlert "abc")) = NaN
   ∧ Z.of_nat (length data) ≤ sampleLimit)
  ∧ lastCutoffId s = "3"
  ∧ lastCutoffId s' = "NaN"
  ∧ error s' = None
  ∧ loading s' = false
  ∧ "abc" ∈ fileIds (alerts s').
Proof.
  intros s data s'.
  assert (sampleAlert "abc" ∈ data) as H1 by decide_by_evaluation.
  assert (parseInt (fileId (sampleAlert "abc")) = NaN) as H2
    by (vm_compute; reflexivity).
  assert (Z.of_nat (length data) ≤ sampleLimit) as H3 by decide_by_evaluation.
  destruct (X23_unparsable_id_page sampleLimit data (sampleAlert "abc") s
              H1 H2 H3) as (_ & Hc & He & Hl).
  split; [exact (conj H1 (conj H2 H3))|]. split; [vm_compute; reflexivity|].
  split; [exact Hc|]. split; [exact He|]. split; [exact Hl|].
  decide_by_evaluation.
Defined.

(** ** Counter poll *)

Lemma C9_counter_poll_isolation_witness :
  let s := run sampleLimit [PasswordSubmit "secret"; Tick] initialState in
  let r : Settled CounterBody :=
    Responded true (CounterData [Some {| rowKey := "other"; count := 4 |}]) in
  let r2 : Settled CounterBody :=
    Responded true
      (CounterData [Some {| rowKey := "other"; count := 4 |};
                    Some {| rowKey := "unique_counter"; count := 17 |}]) in
  counterTick_count r = Throw "TypeError"
  ∧ counter (counterTick_resume r s) = 0
  ∧ error (counterTick_resume r s) = None
  ∧ counter (run sampleLimit [CounterSettled r; Tick; CounterSettled r2] s)
    = 17.
Proof.
  intros s r r2.
  assert (counterTick_count r = Throw "TypeError") as Hr
    by (vm_compute; reflexivity).
  destruct (C9_counter_poll_isolation sampleLimit r _ s Hr)
    as (_ & Hc & He & _).
  split; [exact Hr|]. split; [rewrite Hc; vm_compute; reflexivity|].
  split; [rewrite He; vm_compute; reflexivity|].
  vm_compute. reflexivity.
Defined.

(** ** A new fetch clears the published error *)

Lemma C10_fetch_clears_error_witness :
  let s := run sampleLimit
             [PasswordSubmit "secret";
              FetchSettled (Rejected "TypeError: Failed to fetch");
              ResolveSettled "1" (Responded true tt)]
             initialState in
  (loading s = false ∧ truthyKey (apiKey s) = Some "secret")
  ∧ error s = Some "Failed to fetch alerts. Please try again later."
  ∧ error (fetchAlerts s) = None.
Proof.
  intros s.
  assert (loading s = false) as Hl by (vm_compute; reflexivity).
  assert (truthyKey (apiKey s) = Some "secret") as Hk
    by (vm_compute; reflexivity).
  destruct (C10_fetch_clears_error sampleLimit s "secret" Hl Hk)
    as (_ & He & _).
  split; [by split|]. split; [vm_compute; reflexivity|exact He].
Defined.

(** ** Further properties of the component *)

Lemma X1_sortAlerts_sorts_witness :
  let l := sampleAlert <$> ["3"; "10"; "2"; "9"] in
  Forall safeId (fileIds l)
  ∧ fileIds (sortAlerts l) = ["10"; "9"; "3"; "2"]
  ∧ sortAlerts (sortAlerts l) = sortAlerts l.
Proof.
  intros l.
  assert (Forall safeId (fileIds l)) as Hl by decide_by_evaluation.
  destruct (X1_sortAlerts_sorts l Hl) as (_ & _ & Hidem).
  split; [exact Hl|]. split; [vm_compute; reflexivity|exact Hidem].
Defined.

Lemma X2_sortAlerts_stable_witness :
  let l := sampleAlert <$> ["07"; "3"; "7"; "9"; "7.5"] in
  Forall safeId (fileIds l)
  ∧ fileIds (sortAlerts l) = ["9"; "07"; "7"; "7.5"; "3"]
  ∧ fileIds (filter (valueIs 7) (sortAlerts l)) = ["07"; "7"; "7.5"].
Proof.
  intros l.
  assert (Forall safeId (fileIds l)) as Hl by decide_by_evaluation.
  split; [exact Hl|]. split; [vm_compute; reflexivity|].
  rewrite (X2_sortAlerts_stable l 7 Hl). vm_compute. reflexivity.
Defined.

Lemma X4_mergeAlerts_stored_record_wins_witness :
  let stored := sampleAlert "7" in
  let fresh := {| fileId := "7"; sasUrl := "https://blob.example/new";
                  alert := "No vest"; timestamp := "2024-06-01T00:00:00Z" |} in
  uniqueIds [stored] ∧ stored ∈ [stored]
  ∧ mergeAlerts [fresh; sampleAlert "8"] [stored] = [sampleAlert "8"; stored]
  ∧ ∀ x, x ∈ mergeAlerts [fresh; sampleAlert "8"] [stored] →
         fileId x = fileId stored → x = stored.
Proof.
  intros stored fresh.
  assert (uniqueIds [stored]) as Hu by decide_by_evaluation.
  assert (stored ∈ [stored]) as Hin by decide_by_evaluation.
  split; [exact Hu|]. split; [exact Hin|].
  split; [vm_compute; reflexivity|].
  intros x.
  exact (X4_mergeAlerts_stored_record_wins
           [fresh; sampleAlert "8"] [stored] stored x Hu Hin).
Defined.

Lemma X5_fetch_same_page_twice_witness :
  let s := run sampleLimit [FetchSettled (samplePage ["3"; "1"; "2"])]
             initialState in
  let data := sampleAlert <$> ["5"; "3"; "4"] in
  (fetchAlerts_data (pageOf data) = Ok data
   ∧ Forall safeId (fileIds (alerts s))
   ∧ Forall safeId (fileIds data)
   ∧ Z.of_nat (length data) ≤ sampleLimit)
  ∧ fetchAlerts_resume sampleLimit (pageOf data)
      (fetchAlerts_resume sampleLimit (pageOf data) s)
    = fetchAlerts_resume sampleLimit (pageOf data) s
  ∧ fileIds (alerts (fetchAlerts_resume sampleLimit (pageOf data) s))
    = ["5"; "4"; "3"; "2"; "1"].
Proof.
  intros s data.
  assert (fetchAlerts_data (pageOf data) = Ok data) as H1
    by (vm_compute; reflexivity).
  assert (Forall safeId (fileIds (alerts s))) as H2 by decide_by_evaluation.
  assert (Forall safeId (fileIds data)) as H3 by decide_by_evaluation.
  assert (Z.of_nat (length data) ≤ sampleLimit) as H4 by decide_by_evaluation.
  split; [by repeat split|].
  split; [exact (X5_fetch_same_page_twice sampleLimit (pageOf data) data s
                   H1 H2 H3 H4)|].
  vm_compute. reflexivity.
Defined.

Lemma X7_resolved_alert_reappears_witness :
  let s := run sampleLimit [FetchSettled (samplePage ["3"; "1"; "2"])]
             initialState in
  let data := sampleAlert <$> ["4"; "3"] in
  (fetchAlerts_data (pageOf data) = Ok data ∧ "3" ∈ fileIds data)
  ∧ fileIds (alerts (resolveAlert_resume "3" (Responded true tt) s))
    = ["2"; "1"]
  ∧ "3" ∈ fileIds
            (alerts (fetchAlerts_resume sampleLimit (pageOf data)
                       (resolveAlert_resume "3" (Responded true tt) s))).
Proof.
  intros s data.
  assert (fetchAlerts_data (pageOf data) = Ok data) as H1
    by (vm_compute; reflexivity).
  assert ("3" ∈ fileIds data) as H2 by decide_by_evaluation.
  split; [by split|]. split; [vm_compute; reflexivity|].
  exact (X7_resolved_alert_reappears sampleLimit (pageOf data) data "3" tt s
           H1 H2).
Defined.

Lemma X8_resolves_commute_witness :
  let s := run sampleLimit [FetchSettled (samplePage ["3"; "1"; "2"; "4"])]
             initialState in
  Forall safeId (fileIds (alerts s))
  ∧ resolveAlert_resume "1" (Responded true tt)
      (resolveAlert_resume "3" (Responded true tt) s)
    = resolveAlert_resume "3" (Responded true tt)
        (resolveAlert_resume "1" (Responded true tt) s)
  ∧ fileIds (alerts (resolveAlert_resume "1" (Responded true tt)
                       (resolveAlert_resume "3" (Responded true tt) s)))
    = ["4"; "2"].
Proof.
  intros s.
  assert (Forall safeId (fileIds (alerts s))) as Hs by decide_by_evaluation.
  split; [exact Hs|].
  split; [exact (X8_resolves_commute "1" "3" tt tt s Hs)|].
  vm_compute. reflexivity.
Defined.

Lemma X10_one_page_request_in_flight_witness :
  let es := [PasswordSubmit "secret"; LoadMore; Resolve "3"; Tick; LoadMore;
             ResolveSettled "3" (Responded true tt); LoadMore] in
  Forall (fun e => isFetchSettled e = false) es
  ∧ (fileDataRequests initialState
     ≤ fileDataRequests (run sampleLimit es initialState)
     ≤ fileDataRequests initialState + 1)%nat
  ∧ fileDataRequests (run sampleLimit es initialState) = 1%nat
  ∧ length (network (run sampleLimit es initialState)) = 3%nat.
Proof.
  intros es.
  assert (Forall (fun e => isFetchSettled e = false) es) as Hes
    by decide_by_evaluation.
  destruct (X10_one_page_request_in_flight sampleLimit es initialState Hes)
    as [Hn _].
  split; [exact Hes|]. split; [exact Hn|].
  split; vm_compute; reflexivity.
Defined.

Lemma X11_fetch_on_mount_once_witness :
  let s0 := handlePasswordSubmit "secret" initialState in
  let es := [FetchSettled (samplePage ["3"; "1"; "2"]); LoadMore; Tick] in
  network s0
  = [{| method := "GET"; url := fileDataUrl "0"; xApiKey := "secret" |}]
  ∧ apiKey (run sampleLimit es s0) = Some "secret"
  ∧ handlePasswordSubmit "other" (run sampleLimit es s0) = run sampleLimit es s0
  ∧ length (network (run sampleLimit es s0)) = 3%nat
  ∧ network (run sampleLimit [LoadMore; Tick; Resolve "1"]
               (handlePasswordSubmit "" initialState)) = [].
Proof.
  intros s0 es.
  destruct (X11_fetch_on_mount_once sampleLimit "secret" es "other")
    as (Hnet & _ & _ & Hk & _ & Hsame).
  destruct (X11_fetch_on_mount_once sampleLimit ""
              [LoadMore; Tick; Resolve "1"] "other") as (_ & Hnone & _).
  split; [apply Hnet; discriminate|]. split; [exact Hk|].
  split; [exact Hsame|]. split; [vm_compute; reflexivity|].
  exact (Hnone eq_refl).
Defined.

Lemma X12_no_key_no_effect_witness :
  let s := run sampleLimit [PasswordSubmit ""] initialState in
  let es := [LoadMore; Resolve "3"; Tick; LoadMore] in
  (truthyKey (apiKey s) = None ∧ Forall (fun e => isTrigger e = true) es)
  ∧ showPasswordModal s = false
  ∧ run sampleLimit es s = s
  ∧ network (run sampleLimit es s) = [].
Proof.
  intros s es.
  assert (truthyKey (apiKey s) = None) as Hk by reflexivity.
  assert (Forall (fun e => isTrigger e = true) es) as Hes
    by decide_by_evaluation.
  destruct (X12_no_key_no_effect sampleLimit es s Hk Hes) as (Hrun & _).
  split; [by split|]. split; [reflexivity|]. split; [exact Hrun|].
  rewrite Hrun. reflexivity.
Defined.

Lemma X14_counter_first_match_witness :
  let pre := [{| rowKey := "other"; count := 4 |}] in
  let row := {| rowKey := "unique_counter"; count := 17 |} in
  let post := [{| rowKey := "unique_counter"; count := 99 |}] in
  (Forall (fun r => rowKey r ≠ "unique_counter") pre
   ∧ rowKey row = "unique_counter")
  ∧ counter
      (counterTick_resume
         (Responded true (CounterData (Some <$> (pre ++ row :: post)%list)))
         initialState) = 17
  ∧ ∃ e, counterTick_count
           (Responded true (CounterData [Some row; None])) = Throw e.
Proof.
  intros pre row post.
  assert (Forall (fun r => rowKey r ≠ "unique_counter") pre) as Hpre
    by decide_by_evaluation.
  assert (rowKey row = "unique_counter") as Hrow by reflexivity.
  destruct (X14_counter_first_match pre row post initialState Hpre Hrow)
    as ((_ & Hc) & Hnull).
  split; [by split|]. split; [exact Hc|].
  apply Hnull. right. left.
Defined.

Lemma X15_counter_poll_leaves_feed_witness :
  let s := run sampleLimit
             [PasswordSubmit "secret";
              FetchSettled (samplePage ["3"; "1"; "2"]);
              LoadMore;
              ResolveSettled "2" (Rejected "TypeError: Failed to fetch")]
             initialState in
  let es := [Tick; CounterSettled (Rejected "TypeError: Failed to fetch");
             Tick;
             CounterSettled
               (Responded true
                  (CounterData [Some {| rowKey := "unique_counter";
                                        count := 5 |}]))] in
  Forall (fun e => isCounterEvent e = true) es
  ∧ alerts (run sampleLimit es s) = alerts s
  ∧ error (run sampleLimit es s)
    = Some "Failed to resolve alert. Please try again."
  ∧ loading (run sampleLimit es s) = true
  ∧ counter (run sampleLimit es s) = 5.
Proof.
  intros s es.
  assert (Forall (fun e => isCounterEvent e = true) es) as Hes
    by decide_by_evaluation.
  destruct (X15_counter_poll_leaves_feed sampleLimit es s Hes)
    as (Ha & _ & Hl & He).
  split; [exact Hes|]. split; [exact Ha|].
  split; [rewrite He; vm_compute; reflexivity|].
  split; [rewrite Hl; vm_compute; reflexivity|].
  vm_compute. reflexivity.
Defined.

Lemma X16_cutoff_stays_canonical_witness :
  let es := [PasswordSubmit "secret";
             FetchSettled (samplePage ["3"; "1"; "2"]);
             LoadMore;
             FetchSettled (samplePage ["007"; " 12"; "9px"]);
             LoadMore] in
  pagesSatisfy (fun data => Forall safeId (fileIds data)) es
  ∧ canonicalId (lastCutoffId (run sampleLimit es initialState))
  ∧ lastCutoffId (run sampleLimit es initialState) = "12"
  ∧ url <$> last (network (run sampleLimit es initialState))
    = Some (fileDataUrl "12").
Proof.
  intros es.
  assert (pagesSatisfy (fun data => Forall safeId (fileIds data)) es) as Hes
    by decide_by_evaluation.
  destruct (X16_cutoff_stays_canonical sampleLimit es Hes) as [Hcan _].
  split; [exact Hes|]. split; [exact Hcan|].
  split; vm_compute; reflexivity.
Defined.

Lemma X17_overlay_shows_clicked_alert_witness :
  let l := alerts (run sampleLimit [FetchSettled (samplePage ["3"; "1"; "2"])]
                     initialState) in
  (uniqueIds l ∧ sampleAlert "2" ∈ l ∧ fileId (sampleAlert "2") ≠ "")
  ∧ overlay l (toggleEnlargedImage (Some "2") None)
    = Some (Some "https://blob.example/2").
Proof.
  intros l.
  assert (uniqueIds l) as Hu by decide_by_evaluation.
  assert (sampleAlert "2" ∈ l) as Hin by decide_by_evaluation.
  assert (fileId (sampleAlert "2") ≠ "") as Hne by discriminate.
  split; [by repeat split|].
  exact (proj1 (X17_overlay_shows_clicked_alert l (sampleAlert "2") None
                  Hu Hin Hne)).
Defined.

Lemma X18_overlay_after_resolve_witness :
  let s := run sampleLimit [FetchSettled (samplePage ["3"; "1"; "2"])]
             initialState in
  "2" ≠ ""
  ∧ overlay (alerts s) (Some "2") = Some (Some "https://blob.example/2")
  ∧ overlay (alerts (resolveAlert_resume "2" (Responded true tt) s)) (Some "2")
    = Some None.
Proof.
  intros s.
  assert ("2" ≠ "") as Hne by discriminate.
  split; [exact Hne|]. split; [vm_compute; reflexivity|].
  exact (proj2 (X18_overlay_after_resolve "2" tt s Hne)).
Defined.

Lemma X19_error_stays_until_next_fetch_witness :
  let s := run sampleLimit
             [PasswordSubmit "secret";
              ResolveSettled "9" (Responded false tt)]
             initialState in
  let es := [FetchSettled (samplePage ["3"; "1"; "2"]);
             ResolveSettled "2" (Responded true tt); Tick] in
  (Forall (fun e => startsFetch e = false) es ∧ is_Some (error s))
  ∧ is_Some (error (run sampleLimit es s))
  ∧ error (run sampleLimit es s)
    = Some "Failed to resolve alert. Please try again."
  ∧ error (run sampleLimit (es ++ [LoadMore]) s) = None.
Proof.
  intros s es.
  assert (Forall (fun e => startsFetch e = false) es) as Hes
    by decide_by_evaluation.
  assert (is_Some (error s)) as Herr by (by eexists).
  split; [by split|].
  split; [exact (X19_error_stays_until_next_fetch sampleLimit es s Hes Herr)|].
  split; vm_compute; reflexivity.
Defined.

Lemma X20_load_more_after_completion_witness :
  let s := run sampleLimit [PasswordSubmit "secret"] initialState in
  let r := samplePage ["3"; "1"; "2"] in
  truthyKey (apiKey s) = Some "secret"
  ∧ loading s = true
  ∧ url <$> last (network (fetchAlerts (fetchAlerts_resume sampleLimit r s)))
    = Some (fileDataUrl "3")
  ∧ loading
      (fetchAlerts (fetchAlerts_resume sampleLimit (Rejected "offline") s))
    = true.
Proof.
  intros s r.
  assert (truthyKey (apiKey s) = Some "secret") as Hk by reflexivity.
  destruct (X20_load_more_after_completion sampleLimit (Rejected "offline") s
              "secret" Hk) as (_ & _ & Hl).
  destruct (X20_load_more_after_completion sampleLimit r s "secret" Hk)
    as (_ & Hn & _).
  split; [exact Hk|]. split; [reflexivity|].
  split; [rewrite Hn; vm_compute; reflexivity|exact Hl].
Defined.

Lemma X21_newer_page_goes_on_top_witness :
  let prevAlerts := sampleAlert <$> ["3"; "2"; "1"] in
  let data := sampleAlert <$> ["4"; "6"; "5"] in
  (Forall safeId (fileIds data) ∧ Forall safeId (fileIds prevAlerts)
   ∧ descending prevAlerts
   ∧ Forall (fun a => Forall (idGt a) prevAlerts) data)
  ∧ mergeAlerts data prevAlerts = (sortAlerts data ++ prevAlerts)%list
  ∧ fileIds (mergeAlerts data prevAlerts) = ["6"; "5"; "4"; "3"; "2"; "1"].
Proof.
  intros prevAlerts data.
  assert (Forall safeId (fileIds data)) as H1 by decide_by_evaluation.
  assert (Forall safeId (fileIds prevAlerts)) as H2 by decide_by_evaluation.
  assert (descending prevAlerts) as H3 by decide_by_evaluation.
  assert (Forall (fun a => Forall (idGt a) prevAlerts) data) as H4
    by decide_by_evaluation.
  split; [by repeat split|].
  split; [exact (X21_newer_page_goes_on_top data prevAlerts H1 H2 H3 H4)|].
  vm_compute. reflexivity.
Defined.
